(** * NYC Nexus: the graph derivation pipeline and the query engine

    A shallow embedding of the core of [app/page.tsx]: the taxonomy
    classifier [classifyOsmElement], the great-circle distance [haversine],
    the entity builder, the ontology edge generator and the degree
    computation of [buildNycGraph], and the ranking [queryResults] of the
    page component.

    JavaScript numbers that hold coordinates and distances are IEEE 754
    binary64 values and are modelled by Rocq's primitive floats.  Numbers
    that hold counts (array lengths, degrees, scores) are integers far
    below 2^53 and are modelled by [Z].  Objects used as dictionaries are
    [gmap]s, the [Set] of seen identifiers is a [gset]. *)

From Stdlib Require Import ZArith Floats.
From stdpp Require Import base decidable option list gmap strings pretty.

Local Open Scope Z_scope.
Set Warnings "-inexact-float".

(** ** Shared types ([app/lib/types.ts]) *)

Inductive NodeType := Hotel | Subway | Attraction.

Global Instance NodeType_eq_dec : EqDecision NodeType.
Proof. solve_decision. Defined.

Inductive EdgeLabel := TRANSIT_ACCESS | WALKABLE_TO.

Global Instance EdgeLabel_eq_dec : EqDecision EdgeLabel.
Proof. solve_decision. Defined.

Definition NODE_COLORS (t : NodeType) : string :=
  match t with
  | Hotel => "#3B82F6"
  | Subway => "#10B981"
  | Attraction => "#F59E0B"
  end.

Definition EDGE_COLORS (l : EdgeLabel) : string :=
  match l with
  | TRANSIT_ACCESS => "rgba(16,185,129,0.50)"
  | WALKABLE_TO => "rgba(245,158,11,0.50)"
  end.

Module GraphNode.
Record t := mk {
  id : string;
  name : string;
  type : NodeType;
  lat : float;
  lon : float;
  color : string;
  degree : Z
}.
End GraphNode.

Module GraphLink.
Record t := mk {
  source : string;
  target : string;
  label : EdgeLabel;
  color : string
}.
End GraphLink.

Module RawLink.
Record t := mk {
  source : string;
  target : string;
  label : EdgeLabel;
  color : string
}.
End RawLink.

Module GraphData.
Record t := mk {
  nodes : list GraphNode.t;
  links : list GraphLink.t
}.
End GraphData.

(** ** The numeric library of the host

    [Math.PI], [Math.sin], [Math.cos], [Math.sqrt], [Math.atan2] and the
    exponentiation operator belong to the JavaScript engine, not to the
    repository; ECMAScript leaves their results implementation-approximated.
    They are an interface here, and every result below holds for each
    implementation of it. *)

Class MathLib := {
  Math_PI : float;
  Math_sin : float → float;
  Math_cos : float → float;
  Math_sqrt : float → float;
  Math_atan2 : float → float → float;
  Math_pow : float → float → float
}.

(** ** Ontology utilities *)

Section Ontology.
Context `{MathLib}.

Definition toRad (d : float) : float := ((d * Math_PI) / 180)%float.

Definition haversine (lat1 lon1 lat2 lon2 : float) : float :=
  let R := 6371000%float in
  let dLat := toRad (lat2 - lat1)%float in
  let dLon := toRad (lon2 - lon1)%float in
  let a :=
    (Math_pow (Math_sin (dLat / 2)) 2 +
     Math_cos (toRad lat1) * Math_cos (toRad lat2) * Math_pow (Math_sin (dLon / 2)) 2)%float in
  (R * 2 * Math_atan2 (Math_sqrt a) (Math_sqrt (1 - a)))%float.
End Ontology.

(** [tags.tourism === 'hotel'] and the like: a key that is absent reads as
    [undefined], which is strictly equal to no string. *)
Definition classifyOsmElement (tags : gmap string string) : NodeType :=
  if bool_decide (tags !! "tourism" = Some "hotel") then Hotel
  else if bool_decide (tags !! "railway" = Some "station")
          && bool_decide (tags !! "station" = Some "subway") then Subway
  else Attraction.

(** ** Data fetching: the raw records of the upstream service *)

Inductive OsmKind := node | way | relation.

Global Instance OsmKind_eq_dec : EqDecision OsmKind.
Proof. solve_decision. Defined.

Definition OsmKind_to_string (k : OsmKind) : string :=
  match k with
  | node => "node"
  | way => "way"
  | relation => "relation"
  end.

Module Center.
Record t := mk { lat : float; lon : float }.
End Center.

(** The optional fields [lat?], [lon?], [center?] and [tags?] are options.
    The numeric identifier of an OpenStreetMap element is an integer; a
    template literal prints it in decimal, as [pretty] does. *)
Module OsmElement.
Record t := mk {
  id : Z;
  type : OsmKind;
  lat : option float;
  lon : option float;
  center : option Center.t;
  tags : option (gmap string string)
}.
End OsmElement.

(** [el.lat ?? el.center?.lat] and [el.lon ?? el.center?.lon] *)
Definition resolveLat (el : OsmElement.t) : option float :=
  match OsmElement.lat el with
  | Some x => Some x
  | None => Center.lat <$> OsmElement.center el
  end.

Definition resolveLon (el : OsmElement.t) : option float :=
  match OsmElement.lon el with
  | Some x => Some x
  | None => Center.lon <$> OsmElement.center el
  end.

(** [`${el.type}-${el.id}`] *)
Definition elementId (el : OsmElement.t) : string :=
  OsmKind_to_string (OsmElement.type el) +:+ "-" +:+ pretty (OsmElement.id el).

(** [tags.name ?? tags['name:en'] ?? `OSM ${el.id}`] *)
Definition elementName (tags : gmap string string) (el : OsmElement.t) : string :=
  match tags !! "name" with
  | Some n => n
  | None =>
      match tags !! "name:en" with
      | Some n => n
      | None => "OSM " +:+ pretty (OsmElement.id el)
      end
  end.

(** The node an element becomes once its coordinates are resolved. *)
Definition elementNode (el : OsmElement.t) (lat lon : float) : GraphNode.t :=
  let tags := default ∅ (OsmElement.tags el) in
  let type := classifyOsmElement tags in
  GraphNode.mk (elementId el) (elementName tags el) type lat lon (NODE_COLORS type) 0.

(** One iteration of the loop over [elements]; the state is [seenIds]
    together with the array [nodes], to which [push] appends. *)
Definition addElement (st : gset string * list GraphNode.t) (el : OsmElement.t)
  : gset string * list GraphNode.t :=
  match resolveLat el, resolveLon el with
  | Some lat, Some lon =>
      if bool_decide (elementId el ∈ st.1) then st
      else ({[ elementId el ]} ∪ st.1, st.2 ++ [elementNode el lat lon])
  | _, _ => st
  end.

Definition buildNodes (elements : list OsmElement.t) : list GraphNode.t :=
  (foldl addElement (∅, []) elements).2.

(** A record is located when both of its coordinates resolve. *)
Definition located (el : OsmElement.t) : Prop :=
  is_Some (resolveLat el) ∧ is_Some (resolveLon el).

Global Instance located_dec el : Decision (located el).
Proof. unfold located. apply _. Defined.

(** [seenIds] holds exactly the identifiers of the nodes pushed so far, and
    no two of these nodes share an identifier. *)
Definition builderInv (st : gset string * list GraphNode.t) : Prop :=
  (∀ k, k ∈ st.1 ↔ k ∈ GraphNode.id <$> st.2) ∧ NoDup (GraphNode.id <$> st.2).

(** ** The ontology rules *)

Section Derivation.
Context `{MathLib}.

Definition distance (a b : GraphNode.t) : float :=
  haversine (GraphNode.lat a) (GraphNode.lon a) (GraphNode.lat b) (GraphNode.lon b).

Definition transitLink (hotel subway : GraphNode.t) : GraphLink.t :=
  GraphLink.mk (GraphNode.id hotel) (GraphNode.id subway)
               TRANSIT_ACCESS (EDGE_COLORS TRANSIT_ACCESS).

Definition walkableLink (hotel attraction : GraphNode.t) : GraphLink.t :=
  GraphLink.mk (GraphNode.id hotel) (GraphNode.id attraction)
               WALKABLE_TO (EDGE_COLORS WALKABLE_TO).

(** The body of the loop over [hotels]: first the subways, then the
    attractions, each in array order. *)
Definition hotelLinks (subways attractions : list GraphNode.t) (hotel : GraphNode.t)
  : list GraphLink.t :=
  (subway ← subways;
     if (distance hotel subway <=? 300)%float then [transitLink hotel subway] else [])
  ++
  (attraction ← attractions;
     if (distance hotel attraction <=? 500)%float then [walkableLink hotel attraction] else []).

Definition generateLinks (nodes : list GraphNode.t) : list GraphLink.t :=
  let hotels := filter (λ n, GraphNode.type n = Hotel) nodes in
  let subways := filter (λ n, GraphNode.type n = Subway) nodes in
  let attractions := filter (λ n, GraphNode.type n = Attraction) nodes in
  hotel ← hotels; hotelLinks subways attractions hotel.

(** ** Degree centrality *)

(** [degreeMap.set(k, (degreeMap.get(k) ?? 0) + 1)] *)
Definition increment (k : string) (degreeMap : gmap string Z) : gmap string Z :=
  <[ k := default 0 (degreeMap !! k) + 1 ]> degreeMap.

Definition countLink (degreeMap : gmap string Z) (l : GraphLink.t) : gmap string Z :=
  increment (GraphLink.target l) (increment (GraphLink.source l) degreeMap).

Definition degreeMapOf (links : list GraphLink.t) : gmap string Z :=
  foldl countLink ∅ links.

(** [node.degree = degreeMap.get(node.id) ?? 0] *)
Definition setDegree (degreeMap : gmap string Z) (n : GraphNode.t) : GraphNode.t :=
  GraphNode.mk (GraphNode.id n) (GraphNode.name n) (GraphNode.type n)
               (GraphNode.lat n) (GraphNode.lon n) (GraphNode.color n)
               (default 0 (degreeMap !! GraphNode.id n)).

(** [buildNycGraph], from the parsed [elements] of the response on. *)
Definition buildNycGraph (elements : list OsmElement.t) : GraphData.t :=
  let nodes := buildNodes elements in
  let links := generateLinks nodes in
  let degreeMap := degreeMapOf links in
  GraphData.mk (setDegree degreeMap <$> nodes) links.
End Derivation.

(** ** The query engine *)

Inductive QueryMode := transit | culture | balanced | connected | hub | corridor.

Global Instance QueryMode_eq_dec : EqDecision QueryMode.
Proof. solve_decision. Defined.

Module QueryResult.
Record t := mk {
  hotel : GraphNode.t;
  transitCount : Z;
  cultureCount : Z;
  score : Z
}.
End QueryResult.

(** The snapshot of the links the page takes when the graph arrives. *)
Definition snapshot (l : GraphLink.t) : RawLink.t :=
  RawLink.mk (GraphLink.source l) (GraphLink.target l) (GraphLink.label l) (GraphLink.color l).

(** [(l.source === hotel.id || l.target === hotel.id) && l.label === label] *)
Definition touches (hotelId : string) (label : EdgeLabel) (l : RawLink.t) : Prop :=
  (RawLink.source l = hotelId ∨ RawLink.target l = hotelId) ∧ RawLink.label l = label.

Global Instance touches_dec hotelId label l : Decision (touches hotelId label l).
Proof. unfold touches. apply _. Defined.

Definition countTouching (rawLinks : list RawLink.t) (hotelId : string) (label : EdgeLabel) : Z :=
  Z.of_nat (length (filter (touches hotelId label) rawLinks)).

(** The chain of conditionals over [queryMode]; [corridor] is its last,
    untested branch. *)
Definition modeScore (queryMode : QueryMode) (t c : Z) : Z :=
  if bool_decide (queryMode = transit) then t * 2 + c
  else if bool_decide (queryMode = culture) then c * 2 + t
  else if bool_decide (queryMode = balanced) then t + c
  else if bool_decide (queryMode = connected) then
    (if bool_decide (t > 0) && bool_decide (c > 0) then t + c else 0)
  else if bool_decide (queryMode = hub) then t * 3 + c
  else c * 3 + t.

Definition scoreHotel (rawLinks : list RawLink.t) (queryMode : QueryMode)
    (hotel : GraphNode.t) : QueryResult.t :=
  let t := countTouching rawLinks (GraphNode.id hotel) TRANSIT_ACCESS in
  let c := countTouching rawLinks (GraphNode.id hotel) WALKABLE_TO in
  QueryResult.mk hotel t c (modeScore queryMode t c).

(** [Array.prototype.sort] with a comparator.  ECMAScript (2019 on)
    requires the sort to be stable, so for a consistent comparator its
    result is the one permutation that is ordered and keeps equal elements
    in their original order; insertion from the right computes it.  [x]
    goes before [y] unless the comparator puts [y] strictly first. *)
Section Sort.
Context {A : Type} (compareFn : A → A → Z).

Fixpoint sortInsert (x : A) (l : list A) : list A :=
  match l with
  | [] => [x]
  | y :: l' =>
      if bool_decide (compareFn x y ≤ 0) then x :: y :: l'
      else y :: sortInsert x l'
  end.

Definition sort (l : list A) : list A := foldr sortInsert [] l.

(** No element is put strictly after a later one. *)
Definition ordered (l : list A) : Prop :=
  ∀ i j a b, (i < j)%nat → l !! i = Some a → l !! j = Some b → compareFn a b ≤ 0.
End Sort.

(** [(a, b) => b.score - a.score] *)
Definition byScoreDesc (a b : QueryResult.t) : Z :=
  QueryResult.score b - QueryResult.score a.

Definition queryResults (nodes : list GraphNode.t) (rawLinks : list RawLink.t)
    (queryMode : QueryMode) : list QueryResult.t :=
  if bool_decide (length rawLinks = 0%nat) || bool_decide (length nodes = 0%nat) then []
  else
    take 5
      (sort byScoreDesc
        (filter (λ r, QueryResult.score r > 0)
          (scoreHotel rawLinks queryMode <$>
            filter (λ n, GraphNode.type n = Hotel) nodes))).

(** ** A reference numeric library and sample data

    Truncated power series in binary64 arithmetic; they agree with the
    mathematical functions to well below a millimetre on the street-scale
    coordinates of the samples, which is all they are used for. *)

Module RefMath.
Definition PI : float := 0x1.921fb54442d18p+1%float.

Definition sin (x : float) : float :=
  let y := (x * x)%float in
  (x * (1 - y / 6 * (1 - y / 20 * (1 - y / 42 * (1 - y / 72 * (1 - y / 110 * (1 - y / 156)))))))%float.

Definition cos (x : float) : float :=
  let y := (x * x)%float in
  (1 - y / 2 * (1 - y / 12 * (1 - y / 30 * (1 - y / 56 * (1 - y / 90 * (1 - y / 132 * (1 - y / 182)))))))%float.

Definition atan (z : float) : float :=
  let y := (z * z)%float in
  (z * (1 - y * (1 / 3 - y * (1 / 5 - y * (1 / 7 - y * (1 / 9))))))%float.

(** First quadrant with a dominant abscissa, where the haversine
    argument of short distances lies. *)
Definition atan2 (y x : float) : float := atan (y / x)%float.

Definition pow (x e : float) : float :=
  if (e =? 2)%float then (x * x)%float else if (e =? 1)%float then x else 1%float.
End RefMath.

Definition refMath : MathLib :=
  {| Math_PI := RefMath.PI;
     Math_sin := RefMath.sin;
     Math_cos := RefMath.cos;
     Math_sqrt := PrimFloat.sqrt;
     Math_atan2 := RefMath.atan2;
     Math_pow := RefMath.pow |}.

Module Sample.
Definition hotelTags : gmap string string :=
  <[ "tourism" := "hotel" ]> (<[ "name" := "Hotel One" ]> ∅).
Definition subwayTags : gmap string string :=
  <[ "railway" := "station" ]> (<[ "station" := "subway" ]> ∅).
Definition museumTags : gmap string string :=
  <[ "tourism" := "museum" ]> (<[ "name:en" := "Museum One" ]> ∅).

Definition H1 : OsmElement.t :=
  OsmElement.mk 1 node (Some 40.7550%float) (Some (-73.9840)%float) None (Some hotelTags).
Definition S1 : OsmElement.t :=
  OsmElement.mk 2 node (Some 40.7551%float) (Some (-73.9839)%float) None (Some subwayTags).
Definition A1 : OsmElement.t :=
  OsmElement.mk 3 way None None (Some (Center.mk 40.7560%float (-73.9830)%float))
                (Some museumTags).
(** A subway about 450 metres north of [H1]. *)
Definition S2 : OsmElement.t :=
  OsmElement.mk 4 node (Some 40.75905%float) (Some (-73.9840)%float) None (Some subwayTags).
(** The same identity as [H1], without any coordinate. *)
Definition H1_nowhere : OsmElement.t :=
  OsmElement.mk 1 node None None None (Some hotelTags).
Definition H1_moved : OsmElement.t :=
  OsmElement.mk 1 node (Some 40.7600%float) (Some (-73.9800)%float) None (Some hotelTags).

(** A second hotel, some twenty metres north of [H1]. *)
Definition H2 : OsmElement.t :=
  OsmElement.mk 5 way None None (Some (Center.mk 40.7552%float (-73.9840)%float))
                (Some hotelTags).

Definition elements : list OsmElement.t := [H1; S1; A1; S2; H2].

Definition hotel1 : GraphNode.t := elementNode H1 40.7550%float (-73.9840)%float.
Definition subway1 : GraphNode.t := elementNode S1 40.7551%float (-73.9839)%float.
Definition museum1 : GraphNode.t := elementNode A1 40.7560%float (-73.9830)%float.
Definition subway2 : GraphNode.t := elementNode S2 40.75905%float (-73.9840)%float.
Definition hotel2 : GraphNode.t := elementNode H2 40.7552%float (-73.9840)%float.

Definition nodes : list GraphNode.t := [hotel1; subway1; museum1; subway2; hotel2].

(** The graph of the sample, with the reference numeric library. *)
Definition graph : GraphData.t := @buildNycGraph refMath elements.
Definition rawLinks : list RawLink.t := snapshot <$> GraphData.links graph.
End Sample.

(** ** The page component: values derived on every render *)

Inductive IconName := Navigation | Landmark | BarChart2 | Layers | Zap | Sparkles.

Module QueryModeConfig.
Record t := mk {
  key : QueryMode;
  label : string;
  Icon : IconName;
  accent : string;
  description : string
}.
End QueryModeConfig.

Definition QUERY_MODES : list QueryModeConfig.t :=
  [ QueryModeConfig.mk transit "Transit Priority" Navigation "#10B981"
      "Hotels ranked by subway reachability (TRANSIT_ACCESS × 2)";
    QueryModeConfig.mk culture "Culture First" Landmark "#F59E0B"
      "Hotels ranked by walkable attractions (WALKABLE_TO × 2)";
    QueryModeConfig.mk balanced "Balanced" BarChart2 "#8B5CF6"
      "Equal weight on transit and cultural access";
    QueryModeConfig.mk connected "Fully Connected" Layers "#6366F1"
      "Only hotels that have BOTH subway and attraction edges";
    QueryModeConfig.mk hub "Transit Hub" Zap "#22D3EE"
      "Maximum subway connectivity (TRANSIT_ACCESS × 3)";
    QueryModeConfig.mk corridor "Art Corridor" Sparkles "#F472B6"
      "Maximum cultural immersion (WALKABLE_TO × 3)" ].

(** [QUERY_MODES.find((m) => m.key === queryMode)], before the non-null
    assertion; [None] is [undefined]. *)
Definition activeModeConfig (queryMode : QueryMode) : option QueryModeConfig.t :=
  List.find (λ m, bool_decide (QueryModeConfig.key m = queryMode)) QUERY_MODES.

Definition RANK_COLORS : list string :=
  ["#F59E0B"; "#94A3B8"; "#B45309"; "#64748B"; "#64748B"].

(** [queryResults[0]?.score ?? 1] *)
Definition maxScore (results : list QueryResult.t) : Z :=
  match results !! 0%nat with
  | Some r => QueryResult.score r
  | None => 1
  end.

Module Counts.
Record t := mk { hotels : Z; subways : Z; attractions : Z }.
End Counts.

Definition counts (nodes : list GraphNode.t) : Counts.t :=
  Counts.mk
    (Z.of_nat (length (filter (λ n, GraphNode.type n = Hotel) nodes)))
    (Z.of_nat (length (filter (λ n, GraphNode.type n = Subway) nodes)))
    (Z.of_nat (length (filter (λ n, GraphNode.type n = Attraction) nodes))).

(** The label painted under a node: [raw.length > 24 ? raw.slice(0, 24) +
    '…' : raw].  A JavaScript string is a sequence of UTF-16 code units, and
    the ellipsis is the single unit U+2026. *)
Definition ELLIPSIS : N := 0x2026%N.

Definition nodeLabel (raw : list N) : list N :=
  if bool_decide (24 < length raw)%nat then take 24 raw ++ [ELLIPSIS] else raw.

(** ** The map view ([app/components/MapView.tsx]) *)

(** [new Map(nodes.map((n) => [n.id, n]))]: the entries are set in array
    order, so a later node replaces an earlier one of the same identifier. *)
Definition nodeMapOf (nodes : list GraphNode.t) : gmap string GraphNode.t :=
  foldl (λ m n, <[ GraphNode.id n := n ]> m) ∅ nodes.

Module Polyline.
Record t := mk {
  key : string;
  positions : (float * float) * (float * float);
  color : string;
  weight : float;
  opacity : float;
  dashArray : string
}.
End Polyline.

(** The callback of [rawLinks.map((link, i) => ...)]; [None] is the [null]
    it returns when an endpoint is not in the node map. *)
Definition linkPolyline (nodeMap : gmap string GraphNode.t) (i : nat) (link : RawLink.t)
  : option Polyline.t :=
  match nodeMap !! RawLink.source link, nodeMap !! RawLink.target link with
  | Some src, Some tgt =>
      Some (Polyline.mk
              ("link-" +:+ pretty i)
              ((GraphNode.lat src, GraphNode.lon src), (GraphNode.lat tgt, GraphNode.lon tgt))
              (if bool_decide (RawLink.label link = TRANSIT_ACCESS)
               then "#10B981" else "#F59E0B")
              1.5%float 0.55%float "5, 8")
  | _, _ => None
  end.

Definition linkPolylines (nodes : list GraphNode.t) (rawLinks : list RawLink.t)
  : list (option Polyline.t) :=
  imap (linkPolyline (nodeMapOf nodes)) rawLinks.

(** [Math.min] and [Math.max] over the values spread into their arguments,
    as ECMAScript defines them: the result starts at +∞ (at -∞), a NaN
    among the values gives NaN, and -0 counts as smaller than +0. *)
Definition isNegZero (x : float) : bool :=
  match classify x with NZero => true | _ => false end.

Definition isPosZero (x : float) : bool :=
  match classify x with PZero => true | _ => false end.

Fixpoint minLoop (lowest : float) (coerced : list float) : float :=
  match coerced with
  | [] => lowest
  | number :: rest =>
      if is_nan number then nan
      else if isNegZero number && isPosZero lowest then minLoop number rest
      else if (number <? lowest)%float then minLoop number rest
      else minLoop lowest rest
  end.

Definition Math_min (values : list float) : float := minLoop infinity values.

Fixpoint maxLoop (highest : float) (coerced : list float) : float :=
  match coerced with
  | [] => highest
  | number :: rest =>
      if is_nan number then nan
      else if isPosZero number && isNegZero highest then maxLoop number rest
      else if (highest <? number)%float then maxLoop number rest
      else maxLoop highest rest
  end.

Definition Math_max (values : list float) : float := maxLoop neg_infinity values.

(** The effect of [FitBounds]: [None] when it returns without fitting, else
    the bounds [[south, west], [north, east]] handed to [map.fitBounds]. *)
Definition fitBoundsOf (nodes : list GraphNode.t)
  : option ((float * float) * (float * float)) :=
  if bool_decide (length nodes = 0%nat) then None
  else
    let lats := GraphNode.lat <$> nodes in
    let lons := GraphNode.lon <$> nodes in
    Some ((Math_min lats, Math_min lons), (Math_max lats, Math_max lons)).

(** ** Loading the graph

    What [fetch] and [res.json()] deliver to [buildNycGraph]: the request
    is rejected with a message, or it resolves to a response whose body,
    read only when the response is ok, either fails to parse or is an
    object with an optional [elements] array. *)
Module Response.
Record t := mk {
  ok : bool;
  status : Z;
  statusText : string;
  json : string + option (list OsmElement.t)
}.
End Response.

Inductive FetchOutcome :=
  | Rejected (message : string)
  | Resolved (res : Response.t).

Section Loading.
Context `{MathLib}.

(** The whole of [buildNycGraph]: [inl] carries the message of the error
    that rejects the promise. *)
Definition fetchNycGraph (outcome : FetchOutcome) : string + GraphData.t :=
  match outcome with
  | Rejected message => inl message
  | Resolved res =>
      if negb (Response.ok res) then
        inl ("Overpass API error: HTTP " +:+ pretty (Response.status res) +:+ " "
             +:+ Response.statusText res)
      else
        match Response.json res with
        | inl message => inl message
        | inr elements => inr (buildNycGraph (default [] elements))
        end
  end.
End Loading.

Module PageState.
Record t := mk {
  graphData : GraphData.t;
  rawLinks : list RawLink.t;
  loading : bool;
  error : option string
}.
End PageState.

Definition initialPageState : PageState.t :=
  PageState.mk (GraphData.mk [] []) [] true None.

(** The effect that runs on mount, once the promise has settled: [then]
    sets the raw links and the graph, [catch] the error message, [finally]
    clears the loading flag. *)
Definition settle (result : string + GraphData.t) (st : PageState.t) : PageState.t :=
  match result with
  | inr data =>
      PageState.mk data (snapshot <$> GraphData.links data) false (PageState.error st)
  | inl message =>
      PageState.mk (PageState.graphData st) (PageState.rawLinks st) false (Some message)
  end.

(** ** Sums over arrays *)

Definition sumZ {A} (f : A → Z) (l : list A) : Z := foldr (λ x acc, f x + acc) 0 l.

(** * Properties *)

(** ** The classifier *)

Lemma classifyOsmElement_hotel (tags : gmap string string) :
  tags !! "tourism" = Some "hotel" → classifyOsmElement tags = Hotel.
Proof. intros Ht. unfold classifyOsmElement. by rewrite bool_decide_eq_true_2. Qed.

Lemma classifyOsmElement_subway (tags : gmap string string) :
  tags !! "tourism" ≠ Some "hotel" →
  tags !! "railway" = Some "station" →
  tags !! "station" = Some "subway" →
  classifyOsmElement tags = Subway.
Proof.
  intros Ht Hr Hs. unfold classifyOsmElement.
  rewrite (bool_decide_eq_false_2 _ Ht).
  by rewrite !bool_decide_eq_true_2.
Qed.

Lemma classifyOsmElement_attraction (tags : gmap string string) :
  tags !! "tourism" ≠ Some "hotel" →
  ¬ (tags !! "railway" = Some "station" ∧ tags !! "station" = Some "subway") →
  classifyOsmElement tags = Attraction.
Proof.
  intros Ht Hn. unfold classifyOsmElement.
  rewrite (bool_decide_eq_false_2 _ Ht).
  destruct (bool_decide (tags !! "railway" = Some "station")) eqn:Hr;
    destruct (bool_decide (tags !! "station" = Some "subway")) eqn:Hs; try done.
  apply bool_decide_eq_true_1 in Hr, Hs. by destruct Hn.
Qed.

(** ** The entity builder *)

(** Records of different kinds, or of different numeric identifiers, never
    share an identity key. *)
Lemma elementId_inj (el1 el2 : OsmElement.t) :
  elementId el1 = elementId el2 →
  OsmElement.type el1 = OsmElement.type el2 ∧ OsmElement.id el1 = OsmElement.id el2.
Proof.
  unfold elementId.
  destruct (OsmElement.type el1), (OsmElement.type el2); simpl; try done;
    intros Heq; (split; [done|]); by simplify_eq.
Qed.

Lemma addElement_skip st el : ¬ located el → addElement st el = st.
Proof.
  unfold located, addElement. intros Hn.
  destruct (resolveLat el) as [la|], (resolveLon el) as [lo|]; try done.
  destruct Hn. split; by eexists.
Qed.

Lemma addElement_seen st el : elementId el ∈ st.1 → addElement st el = st.
Proof.
  intros Hin. unfold addElement.
  destruct (resolveLat el), (resolveLon el); try done.
  by rewrite bool_decide_eq_true_2.
Qed.

Lemma addElement_fresh st el la lo :
  resolveLat el = Some la → resolveLon el = Some lo → elementId el ∉ st.1 →
  addElement st el = ({[ elementId el ]} ∪ st.1, st.2 ++ [elementNode el la lo]).
Proof.
  intros Hla Hlo Hni. unfold addElement. rewrite Hla, Hlo.
  by rewrite bool_decide_eq_false_2.
Qed.

Lemma builderInv_init : builderInv (∅, []).
Proof.
  split; simpl; [|constructor].
  intros k. split; [set_solver | by intros ?%elem_of_nil].
Qed.

Lemma builderInv_addElement st el : builderInv st → builderInv (addElement st el).
Proof.
  intros [Hseen Hnd]. unfold addElement.
  destruct (resolveLat el) as [la|], (resolveLon el) as [lo|]; try done.
  case_bool_decide as Hin; [done|].
  split; simpl.
  - intros k. rewrite fmap_app, elem_of_app, elem_of_union, Hseen. simpl.
    rewrite elem_of_singleton, list_elem_of_singleton. tauto.
  - rewrite fmap_app. apply NoDup_app. split_and!; [done| |].
    + intros k Hk. simpl. rewrite list_elem_of_singleton. intros ->.
      by apply Hin, Hseen.
    + simpl. apply NoDup_singleton.
Qed.

Lemma builderInv_foldl els st : builderInv st → builderInv (foldl addElement st els).
Proof.
  revert st. induction els as [|el els IH]; intros st Hst; simpl; [done|].
  by apply IH, builderInv_addElement.
Qed.

Lemma buildNodes_snoc els el :
  buildNodes (els ++ [el]) =
    match resolveLat el, resolveLon el with
    | Some la, Some lo =>
        if bool_decide (elementId el ∈ GraphNode.id <$> buildNodes els)
        then buildNodes els
        else buildNodes els ++ [elementNode el la lo]
    | _, _ => buildNodes els
    end.
Proof.
  unfold buildNodes. rewrite foldl_snoc.
  pose proof (builderInv_foldl els _ builderInv_init) as [Hseen _].
  set (st := foldl addElement (∅, []) els) in *.
  unfold addElement.
  destruct (resolveLat el) as [la|], (resolveLon el) as [lo|]; try done.
  rewrite (bool_decide_ext _ _ (Hseen (elementId el))).
  by case_bool_decide.
Qed.

Lemma buildNodes_NoDup els : NoDup (GraphNode.id <$> buildNodes els).
Proof. apply (builderInv_foldl els _ builderInv_init). Qed.

(** The identifiers in the output are those of the located records. *)
Lemma buildNodes_ids els k :
  k ∈ GraphNode.id <$> buildNodes els ↔ ∃ el, el ∈ els ∧ located el ∧ elementId el = k.
Proof.
  induction els as [|el els IH] using rev_ind.
  - split; [by intros ?%elem_of_nil | by intros (? & ?%elem_of_nil & _)].
  - rewrite buildNodes_snoc. setoid_rewrite elem_of_app.
    setoid_rewrite list_elem_of_singleton.
    destruct (resolveLat el) as [la|] eqn:Hla, (resolveLon el) as [lo|] eqn:Hlo.
    + assert (located el) as Hloc by (split; by eexists).
      case_bool_decide as Hin.
      * rewrite IH. split; [intros (e & ? & ? & ?); eauto 6|].
        intros (e & [He| ->] & Hl & Hk); [eauto|]. subst k. by apply IH.
      * rewrite fmap_app, elem_of_app, IH. simpl. rewrite list_elem_of_singleton.
        split.
        -- intros [(e & ? & ? & ?)| ->]; eauto 6.
        -- intros (e & [He| ->] & Hl & Hk); [left; eauto | by right].
    + rewrite IH. split; [intros (e & ? & ? & ?); eauto 6|].
      intros (e & [He| ->] & Hl & Hk); [eauto|].
      destruct Hl as [_ [? Hl]]. congruence.
    + rewrite IH. split; [intros (e & ? & ? & ?); eauto 6|].
      intros (e & [He| ->] & Hl & Hk); [eauto|].
      destruct Hl as [[? Hl] _]. congruence.
    + rewrite IH. split; [intros (e & ? & ? & ?); eauto 6|].
      intros (e & [He| ->] & Hl & Hk); [eauto|].
      destruct Hl as [[? Hl] _]. congruence.
Qed.

Lemma buildNodes_snoc_subseteq els el n :
  n ∈ buildNodes els → n ∈ buildNodes (els ++ [el]).
Proof.
  intros Hn. rewrite buildNodes_snoc.
  destruct (resolveLat el), (resolveLon el); try done.
  case_bool_decide; [done|]. apply elem_of_app. by left.
Qed.

(** A node of the output is built from the first located record that
    carries its identifier. *)
Lemma elem_of_buildNodes els n :
  n ∈ buildNodes els ↔
  ∃ l1 el l2 la lo,
    els = l1 ++ el :: l2 ∧
    resolveLat el = Some la ∧ resolveLon el = Some lo ∧
    n = elementNode el la lo ∧
    (∀ el', el' ∈ l1 → located el' → elementId el' ≠ elementId el).
Proof.
  induction els as [|x els IH] using rev_ind.
  - split; [by intros ?%elem_of_nil|].
    intros (l1 & el & l2 & ? & ? & Heq & _). by destruct l1.
  - split.
    + rewrite buildNodes_snoc.
      destruct (resolveLat x) as [la|] eqn:Hla, (resolveLon x) as [lo|] eqn:Hlo;
        try (intros (l1 & el & l2 & la' & lo' & -> & ?)%IH;
             exists l1, el, (l2 ++ [x]), la', lo';
             by rewrite <- app_assoc, <- app_comm_cons).
      case_bool_decide as Hin.
      * intros (l1 & el & l2 & la' & lo' & -> & ?)%IH.
        exists l1, el, (l2 ++ [x]), la', lo'.
        by rewrite <- app_assoc, <- app_comm_cons.
      * intros [Hn| ->%list_elem_of_singleton]%elem_of_app.
        -- apply IH in Hn as (l1 & el & l2 & la' & lo' & -> & ?).
           exists l1, el, (l2 ++ [x]), la', lo'.
           by rewrite <- app_assoc, <- app_comm_cons.
        -- exists els, x, [], la, lo. split_and!; try done.
           intros el' Hel' Hloc Hid. apply Hin, buildNodes_ids. eauto.
    + intros (l1 & el & l2 & la & lo & Heq & Hla & Hlo & -> & Hfirst).
      destruct l2 as [|y l2 _] using rev_ind.
      * apply app_inj_tail in Heq as [-> ->].
        rewrite buildNodes_snoc, Hla, Hlo.
        rewrite bool_decide_eq_false_2.
        { apply elem_of_app. right. by apply list_elem_of_singleton. }
        intros (el' & Hel' & Hloc & Hid)%buildNodes_ids. by eapply Hfirst.
      * rewrite app_comm_cons, app_assoc in Heq.
        apply app_inj_tail in Heq as [-> ->].
        apply buildNodes_snoc_subseteq, IH.
        exists l1, el, l2, la, lo. by split_and!.
Qed.

(** A record without usable coordinates leaves no trace: the output is
    that of the input without it. *)
Lemma buildNodes_skip l1 el l2 :
  ¬ located el → buildNodes (l1 ++ el :: l2) = buildNodes (l1 ++ l2).
Proof.
  intros Hn. unfold buildNodes. rewrite !foldl_app. simpl.
  by rewrite addElement_skip.
Qed.

(** A located record whose identifier was already delivered by an earlier
    located record is dropped. *)
Lemma buildNodes_duplicate l1 el l2 el' :
  el' ∈ l1 → located el' → elementId el' = elementId el →
  buildNodes (l1 ++ el :: l2) = buildNodes (l1 ++ l2).
Proof.
  intros Hin Hloc Hid. unfold buildNodes. rewrite !foldl_app. simpl.
  rewrite addElement_seen; [done|].
  apply (builderInv_foldl l1 _ builderInv_init).
  fold (buildNodes l1). apply buildNodes_ids. eauto.
Qed.

(** ** Comparison of binary64 numbers *)



(** ** The edge generator *)

Lemma NoDup_fmap_eq {A B} (f : A → B) (l : list A) (x y : A) :
  NoDup (f <$> l) → x ∈ l → y ∈ l → f x = f y → x = y.
Proof.
  induction l as [|a l IH]; [by intros _ ?%elem_of_nil|].
  rewrite fmap_cons, NoDup_cons. intros [Hni Hnd].
  rewrite !elem_of_cons. intros [->|Hx] [->|Hy] Heq; try done.
  - destruct Hni. rewrite Heq. by apply list_elem_of_fmap_2.
  - destruct Hni. rewrite <- Heq. by apply list_elem_of_fmap_2.
  - by apply IH.
Qed.

Section EdgeGeneratorFacts.
Context `{MathLib}.

Lemma elem_of_hotelLinks subways attractions hotel l :
  l ∈ hotelLinks subways attractions hotel ↔
  (∃ s, s ∈ subways ∧ (distance hotel s <=? 300)%float = true ∧ l = transitLink hotel s) ∨
  (∃ a, a ∈ attractions ∧ (distance hotel a <=? 500)%float = true ∧ l = walkableLink hotel a).
Proof.
  unfold hotelLinks. rewrite elem_of_app, !list_elem_of_bind.
  split.
  - intros [(s & Hl & Hs)|(a & Hl & Ha)]; [left; exists s|right; exists a];
      (destruct (_ <=? _)%float; [|by apply elem_of_nil in Hl]);
      by apply list_elem_of_singleton in Hl.
  - intros [(s & Hs & Hd & ->)|(a & Ha & Hd & ->)]; [left; exists s|right; exists a];
      rewrite Hd; split; try done; by apply list_elem_of_singleton.
Qed.


(** The edge set is exactly the set of hotel-subway pairs within 300
    metres and of hotel-attraction pairs within 500 metres. *)
Lemma elem_of_generateLinks nodes l :
  l ∈ generateLinks nodes ↔
  ∃ h x, h ∈ nodes ∧ x ∈ nodes ∧ GraphNode.type h = Hotel ∧
    ((GraphNode.type x = Subway ∧ (distance h x <=? 300)%float = true ∧
      l = transitLink h x) ∨
     (GraphNode.type x = Attraction ∧ (distance h x <=? 500)%float = true ∧
      l = walkableLink h x)).
Proof.
  unfold generateLinks. rewrite list_elem_of_bind.
  setoid_rewrite elem_of_hotelLinks. setoid_rewrite list_elem_of_filter.
  split.
  - intros (h & [(s & [? ?] & ? & ?)|(a & [? ?] & ? & ?)] & ? & ?).
    + exists h, s. split_and!; try done. by left.
    + exists h, a. split_and!; try done. by right.
  - intros (h & x & ? & ? & ? & [(? & ? & ?)|(? & ? & ?)]);
      exists h; (split; [|done]); [left|right]; exists x; eauto.
Qed.

(** Every link has a hotel at its source and a subway or an attraction
    at its target, with the label of the rule that produced it. *)
Lemma generateLinks_endpoints nodes l :
  l ∈ generateLinks nodes →
  ∃ h x, h ∈ nodes ∧ x ∈ nodes ∧
    GraphNode.id h = GraphLink.source l ∧ GraphNode.id x = GraphLink.target l ∧
    GraphNode.type h = Hotel ∧
    ((GraphNode.type x = Subway ∧ GraphLink.label l = TRANSIT_ACCESS) ∨
     (GraphNode.type x = Attraction ∧ GraphLink.label l = WALKABLE_TO)) ∧
    GraphLink.color l = EDGE_COLORS (GraphLink.label l).
Proof.
  intros (h & x & Hh & Hx & Hty & [(? & ? & ->)|(? & ? & ->)])%elem_of_generateLinks;
    exists h, x; split_and!; auto.
Qed.

Lemma generateLinks_no_loop nodes l :
  NoDup (GraphNode.id <$> nodes) → l ∈ generateLinks nodes →
  GraphLink.source l ≠ GraphLink.target l.
Proof.
  intros Hnd (h & x & Hh & Hx & Hs & Ht & Hty & Hx' & _)%generateLinks_endpoints Heq.
  assert (h = x) as -> by (apply (NoDup_fmap_eq GraphNode.id nodes); [done..|congruence]).
  destruct Hx' as [[? _]|[? _]]; congruence.
Qed.

Lemma hotelLinks_NoDup subways attractions hotel :
  NoDup (GraphNode.id <$> subways) → NoDup (GraphNode.id <$> attractions) →
  NoDup (hotelLinks subways attractions hotel).
Proof.
  intros Hs Ha. unfold hotelLinks. apply NoDup_app. split_and!.
  - apply NoDup_bind; [| |by eapply NoDup_fmap_1].
    + intros s1 s2 y Hs1 Hs2 Hy1 Hy2.
      destruct (_ <=? _)%float; [|by apply elem_of_nil in Hy1].
      destruct (_ <=? _)%float; [|by apply elem_of_nil in Hy2].
      apply list_elem_of_singleton in Hy1, Hy2. subst y.
      apply (NoDup_fmap_eq GraphNode.id subways); [done..|]. by injection Hy2.
    + intros s _. destruct (_ <=? _)%float; [apply NoDup_singleton | constructor].
  - intros l (s & Hl & _)%list_elem_of_bind (a & Hl' & _)%list_elem_of_bind.
    destruct (_ <=? _)%float; [|by apply elem_of_nil in Hl].
    destruct (_ <=? _)%float; [|by apply elem_of_nil in Hl'].
    apply list_elem_of_singleton in Hl, Hl'. by subst l.
  - apply NoDup_bind; [| |by eapply NoDup_fmap_1].
    + intros s1 s2 y Hs1 Hs2 Hy1 Hy2.
      destruct (_ <=? _)%float; [|by apply elem_of_nil in Hy1].
      destruct (_ <=? _)%float; [|by apply elem_of_nil in Hy2].
      apply list_elem_of_singleton in Hy1, Hy2. subst y.
      apply (NoDup_fmap_eq GraphNode.id attractions); [done..|]. by injection Hy2.
    + intros s _. destruct (_ <=? _)%float; [apply NoDup_singleton | constructor].
Qed.

Lemma filter_ids_NoDup (P : GraphNode.t → Prop) `{!∀ n, Decision (P n)} nodes :
  NoDup (GraphNode.id <$> nodes) → NoDup (GraphNode.id <$> filter P nodes).
Proof.
  intros Hnd. apply NoDup_fmap_2_strong; [|by eapply NoDup_filter, NoDup_fmap_1].
  intros x y [_ Hx]%list_elem_of_filter [_ Hy]%list_elem_of_filter.
  by apply (NoDup_fmap_eq GraphNode.id nodes).
Qed.

Lemma generateLinks_NoDup nodes :
  NoDup (GraphNode.id <$> nodes) → NoDup (generateLinks nodes).
Proof.
  intros Hnd. unfold generateLinks. apply NoDup_bind.
  - intros h1 h2 y [_ Hh1]%list_elem_of_filter [_ Hh2]%list_elem_of_filter Hy1 Hy2.
    apply (NoDup_fmap_eq GraphNode.id nodes); [done..|].
    apply elem_of_hotelLinks in Hy1, Hy2.
    destruct Hy1 as [(? & _ & _ & ->)|(? & _ & _ & ->)],
             Hy2 as [(? & _ & _ & Hy)|(? & _ & _ & Hy)];
      by injection Hy.
  - intros h _. apply hotelLinks_NoDup; by apply filter_ids_NoDup.
  - by eapply NoDup_filter, NoDup_fmap_1.
Qed.
End EdgeGeneratorFacts.

(** ** Degree centrality *)

Lemma increment_lookup k k' (m : gmap string Z) :
  default 0 (increment k m !! k') =
  default 0 (m !! k') + (if bool_decide (k = k') then 1 else 0).
Proof.
  unfold increment. case_bool_decide as Hk.
  - subst k'. by rewrite lookup_insert_eq.
  - rewrite lookup_insert_ne by done. lia.
Qed.

(** The map after the loop over the links, started from any map. *)
Lemma foldl_countLink_lookup links (m : gmap string Z) k :
  default 0 (foldl countLink m links !! k) =
  default 0 (m !! k)
  + Z.of_nat (length (filter (λ l, GraphLink.source l = k) links))
  + Z.of_nat (length (filter (λ l, GraphLink.target l = k) links)).
Proof.
  revert m. induction links as [|l links IH]; intros m; simpl; [lia|].
  rewrite IH. unfold countLink. rewrite !increment_lookup.
  rewrite !filter_cons.
  destruct (decide (GraphLink.source l = k)), (decide (GraphLink.target l = k));
    repeat case_bool_decide; try done; simpl; lia.
Qed.

Lemma degreeMapOf_lookup links k :
  default 0 (degreeMapOf links !! k) =
  Z.of_nat (length (filter (λ l, GraphLink.source l = k) links))
  + Z.of_nat (length (filter (λ l, GraphLink.target l = k) links)).
Proof. unfold degreeMapOf. rewrite foldl_countLink_lookup, lookup_empty. simpl. lia. Qed.

(** Without self-loops an edge incident to [k] is counted once. *)
Lemma incident_count links k :
  (∀ l, l ∈ links → GraphLink.source l ≠ GraphLink.target l) →
  length (filter (λ l, GraphLink.source l = k ∨ GraphLink.target l = k) links) =
  (length (filter (λ l, GraphLink.source l = k) links)
   + length (filter (λ l, GraphLink.target l = k) links))%nat.
Proof.
  induction links as [|l links IH]; intros Hloop; [done|].
  rewrite !filter_cons.
  assert (GraphLink.source l ≠ GraphLink.target l) as Hl by (apply Hloop; left).
  rewrite Nat.add_comm.
  repeat case_decide; simpl; rewrite IH by (intros; apply Hloop; by right);
    try lia; try tauto; congruence.
Qed.

(** ** Sorting *)

Section SortFacts.
Context {A : Type} (compareFn : A → A → Z).

Lemma elem_of_sortInsert x y l : y ∈ sortInsert compareFn x l ↔ y = x ∨ y ∈ l.
Proof.
  induction l as [|z l IH]; simpl.
  - rewrite list_elem_of_singleton, elem_of_nil. tauto.
  - case_bool_decide; [by rewrite elem_of_cons|].
    rewrite !elem_of_cons, IH. tauto.
Qed.

Lemma elem_of_sort y l : y ∈ sort compareFn l ↔ y ∈ l.
Proof.
  induction l as [|x l IH]; [done|]. simpl.
  by rewrite elem_of_sortInsert, elem_of_cons, IH.
Qed.

(** Stability: elements that the comparator does not separate keep their
    order. *)
Lemma filter_sortInsert (P : A → Prop) `{!∀ x, Decision (P x)} x l :
  (∀ a b, P a → P b → compareFn a b ≤ 0) →
  filter P (sortInsert compareFn x l) = filter P (x :: l).
Proof.
  intros Hsame. induction l as [|y l IH]; [done|]. simpl.
  case_bool_decide as Hxy; [done|].
  rewrite (filter_cons _ y), IH, !filter_cons.
  destruct (decide (P x)) as [Hx|Hx], (decide (P y)) as [Hy|Hy]; try done.
  destruct Hxy. by apply Hsame.
Qed.

Lemma filter_sort (P : A → Prop) `{!∀ x, Decision (P x)} l :
  (∀ a b, P a → P b → compareFn a b ≤ 0) →
  filter P (sort compareFn l) = filter P l.
Proof.
  intros Hsame. induction l as [|x l IH]; [done|]. simpl.
  rewrite filter_sortInsert by done. by rewrite !filter_cons, IH.
Qed.

(** Order, for a comparator that is transitive and total. *)
Hypothesis compareFn_trans :
  ∀ a b c, compareFn a b ≤ 0 → compareFn b c ≤ 0 → compareFn a c ≤ 0.
Hypothesis compareFn_total : ∀ a b, ¬ compareFn a b ≤ 0 → compareFn b a ≤ 0.

Lemma ordered_nil : ordered compareFn [].
Proof. by intros i j a b _ ?. Qed.

Lemma ordered_cons x l :
  ordered compareFn (x :: l) ↔ (∀ y, y ∈ l → compareFn x y ≤ 0) ∧ ordered compareFn l.
Proof.
  split.
  - intros Ho. split.
    + intros y [k Hk]%list_elem_of_lookup. by apply (Ho 0%nat (S k)); [lia| |].
    + intros i j a b Hij Ha Hb. apply (Ho (S i) (S j)); [lia|done|done].
  - intros [Hx Ho] i j a b Hij Ha Hb.
    destruct j as [|j]; [lia|]. simpl in Hb.
    destruct i as [|i]; simpl in Ha.
    + injection Ha as ->. apply Hx. by eapply list_elem_of_lookup_2.
    + apply (Ho i j); [lia|done|done].
Qed.

Lemma ordered_sortInsert x l : ordered compareFn l → ordered compareFn (sortInsert compareFn x l).
Proof.
  induction l as [|y l IH]; intros Ho; simpl.
  - apply ordered_cons. split; [by intros ? ?%elem_of_nil | apply ordered_nil].
  - apply ordered_cons in Ho as Hy. destruct Hy as [Hy Hl].
    case_bool_decide as Hxy.
    + apply ordered_cons. split; [|done].
      intros z [->|Hz]%elem_of_cons; [done|].
      eapply compareFn_trans; [done|]. by apply Hy.
    + apply ordered_cons. split; [|by apply IH].
      intros z [->|Hz]%elem_of_sortInsert; [by apply compareFn_total | by apply Hy].
Qed.

Lemma ordered_sort l : ordered compareFn (sort compareFn l).
Proof.
  induction l as [|x l IH]; [apply ordered_nil|]. simpl.
  by apply ordered_sortInsert.
Qed.

Lemma ordered_take n l : ordered compareFn l → ordered compareFn (take n l).
Proof.
  intros Ho i j a b Hij Ha Hb.
  apply lookup_take_Some in Ha as [Ha _], Hb as [Hb _]. by apply (Ho i j).
Qed.
End SortFacts.

(** ** Order-preserving selections *)

Lemma sublist_filter_mono {A} (P : A → Prop) `{!∀ x, Decision (P x)} (l1 l2 : list A) :
  l1 `sublist_of` l2 → filter P l1 `sublist_of` filter P l2.
Proof.
  induction 1 as [|x l1 l2 _ IH|x l1 l2 _ IH]; [done| |].
  - rewrite !filter_cons. case_decide; [by constructor | done].
  - rewrite filter_cons. case_decide; [by constructor | done].
Qed.

Lemma sublist_fmap_inv {A B} (f : A → B) (l : list B) (k : list A) :
  l `sublist_of` f <$> k → ∃ k', k' `sublist_of` k ∧ l = f <$> k'.
Proof.
  revert l. induction k as [|x k IH]; intros l Hl; simpl in Hl.
  - apply sublist_nil_r in Hl as ->. by exists [].
  - inversion Hl as [|y l1 l2 Hsub|y l1 l2 Hsub]; subst.
    + destruct (IH _ Hsub) as (k' & Hk' & ->).
      exists (x :: k'). split; [by constructor | done].
    + destruct (IH _ Hsub) as (k' & Hk' & ->).
      exists k'. split; [by constructor | done].
Qed.

(** ** The sample, evaluated *)

Example sample_buildNodes : buildNodes Sample.elements = Sample.nodes.
Proof. by vm_compute. Qed.

Example sample_links :
  GraphData.links Sample.graph =
    [ transitLink Sample.hotel1 Sample.subway1;
      walkableLink Sample.hotel1 Sample.museum1;
      transitLink Sample.hotel2 Sample.subway1;
      walkableLink Sample.hotel2 Sample.museum1 ].
Proof. by vm_compute. Qed.

Example sample_degrees :
  (λ n, (GraphNode.id n, GraphNode.degree n)) <$> GraphData.nodes Sample.graph =
    [("node-1", 2); ("node-2", 2); ("way-3", 2); ("node-4", 0); ("way-5", 2)].
Proof. by vm_compute. Qed.

Example sample_ranking :
  (λ r, (GraphNode.id (QueryResult.hotel r), QueryResult.score r))
    <$> queryResults (GraphData.nodes Sample.graph) Sample.rawLinks transit =
    [("node-1", 3); ("way-5", 3)].
Proof. by vm_compute. Qed.

Example sample_hotel_before_subway :
  classifyOsmElement (<[ "tourism" := "hotel" ]> Sample.subwayTags) = Hotel.
Proof. by vm_compute. Qed.

Example sample_connected_gate :
  modeScore connected 3 0 = 0 ∧ modeScore transit 3 0 = 6.
Proof. by vm_compute. Qed.

Example sample_threshold :
  (300 <=? 300)%float = true ∧ (300.000001 <=? 300)%float = false.
Proof. by vm_compute. Qed.

(** * The claims *)

(** C6: the classifier returns one of Hotel, Subway and Attraction for
    every tag mapping, the empty one included.  Its rules apply in order:
    a [tourism = hotel] tag gives Hotel whatever the other tags are;
    without it, [railway = station] together with [station = subway] gives
    Subway; every other mapping gives Attraction. *)
Theorem classifier_total_with_priority (tags : gmap string string) :
  (classifyOsmElement tags = Hotel ∨ classifyOsmElement tags = Subway ∨
   classifyOsmElement tags = Attraction) ∧
  (tags !! "tourism" = Some "hotel" → classifyOsmElement tags = Hotel) ∧
  (tags !! "tourism" ≠ Some "hotel" →
   tags !! "railway" = Some "station" → tags !! "station" = Some "subway" →
   classifyOsmElement tags = Subway) ∧
  (tags !! "tourism" ≠ Some "hotel" →
   ¬ (tags !! "railway" = Some "station" ∧ tags !! "station" = Some "subway") →
   classifyOsmElement tags = Attraction) ∧
  classifyOsmElement ∅ = Attraction.
Proof.
  split_and!.
  - destruct (classifyOsmElement tags); auto.
  - apply classifyOsmElement_hotel.
  - apply classifyOsmElement_subway.
  - apply classifyOsmElement_attraction.
  - done.
Qed.

(** C7: a record whose coordinates resolve becomes an entity with them: the
    first record of a key that has them gives the node of that key, with
    the direct point coordinate where the record has one and the centroid
    coordinate where it has not, and every record that has them leaves a
    node under its key.  Conversely every node of the output takes each
    coordinate from the direct point coordinate of its record when that is
    present, and from the centroid otherwise, so both are always present;
    a record that lacks a direct coordinate and has no centroid is skipped,
    the output being that of the input without it. *)
Theorem entity_coordinates_resolved (elements : list OsmElement.t) :
  (∀ l1 el l2 la lo, elements = l1 ++ el :: l2 →
     (∀ el', el' ∈ l1 → elementId el' = elementId el →
        (OsmElement.lat el' = None ∨ OsmElement.lon el' = None) ∧
        OsmElement.center el' = None) →
     (OsmElement.lat el = Some la ∨
      (OsmElement.lat el = None ∧
       ∃ c, OsmElement.center el = Some c ∧ Center.lat c = la)) →
     (OsmElement.lon el = Some lo ∨
      (OsmElement.lon el = None ∧
       ∃ c, OsmElement.center el = Some c ∧ Center.lon c = lo)) →
     ∃ n, n ∈ buildNodes elements ∧ n = elementNode el la lo ∧
          GraphNode.id n = elementId el ∧
          GraphNode.lat n = la ∧ GraphNode.lon n = lo) ∧
  (∀ el, el ∈ elements →
     (is_Some (OsmElement.lat el) ∨ is_Some (OsmElement.center el)) →
     (is_Some (OsmElement.lon el) ∨ is_Some (OsmElement.center el)) →
     ∃ n, n ∈ buildNodes elements ∧ GraphNode.id n = elementId el) ∧
  (∀ n, n ∈ buildNodes elements →
     ∃ el, el ∈ elements ∧ GraphNode.id n = elementId el ∧
       (OsmElement.lat el = Some (GraphNode.lat n) ∨
        (OsmElement.lat el = None ∧
         ∃ c, OsmElement.center el = Some c ∧ Center.lat c = GraphNode.lat n)) ∧
       (OsmElement.lon el = Some (GraphNode.lon n) ∨
        (OsmElement.lon el = None ∧
         ∃ c, OsmElement.center el = Some c ∧ Center.lon c = GraphNode.lon n))) ∧
  (∀ l1 el l2, elements = l1 ++ el :: l2 →
     (OsmElement.lat el = None ∨ OsmElement.lon el = None) →
     OsmElement.center el = None →
     buildNodes elements = buildNodes (l1 ++ l2)).
Proof.
  split_and!.
  - intros l1 el l2 la lo -> Hfirst Hlat Hlon.
    assert (resolveLat el = Some la) as Hla.
    { unfold resolveLat. destruct Hlat as [->|(-> & c & -> & <-)]; done. }
    assert (resolveLon el = Some lo) as Hlo.
    { unfold resolveLon. destruct Hlon as [->|(-> & c & -> & <-)]; done. }
    exists (elementNode el la lo). split_and!; try done.
    apply elem_of_buildNodes. exists l1, el, l2, la, lo. split_and!; try done.
    intros el' Hel' [[x Hx] [y Hy]] Hid.
    destruct (Hfirst el' Hel' Hid) as [Hmiss Hc].
    unfold resolveLat, resolveLon in Hx, Hy. rewrite Hc in Hx, Hy.
    destruct Hmiss as [Hm|Hm]; rewrite Hm in *; done.
  - intros el Hel Hlat Hlon.
    assert (located el) as Hloc.
    { unfold located, resolveLat, resolveLon.
      destruct (OsmElement.lat el), (OsmElement.lon el), (OsmElement.center el);
        simpl; split; try (by eexists);
        destruct Hlat as [[? ?]|[? ?]]; destruct Hlon as [[? ?]|[? ?]]; done. }
    assert (elementId el ∈ GraphNode.id <$> buildNodes elements) as Hin
      by (apply buildNodes_ids; eauto).
    apply list_elem_of_fmap in Hin as (n & Hid & Hn). eauto.
  - intros n (l1 & el & l2 & la & lo & -> & Hla & Hlo & -> & _)%elem_of_buildNodes.
    exists el. split; [apply elem_of_app; right; by left|]. split; [done|]. simpl.
    unfold resolveLat, resolveLon in *. split.
    + destruct (OsmElement.lat el); [left; congruence|right].
      split; [done|]. destruct (OsmElement.center el) as [c|]; [|done].
      exists c. split; [done|]. simpl in Hla. congruence.
    + destruct (OsmElement.lon el); [left; congruence|right].
      split; [done|]. destruct (OsmElement.center el) as [c|]; [|done].
      exists c. split; [done|]. simpl in Hlo. congruence.
  - intros l1 el l2 -> Hmiss Hc. apply buildNodes_skip.
    unfold located, resolveLat, resolveLon. rewrite Hc.
    intros [[? Hla] [? Hlo]]. destruct Hmiss as [Hm|Hm]; rewrite Hm in *; done.
Qed.

(** C8, as the code has it: the identity key is checked only for records
    whose coordinates resolve.  The output has at most one node per key;
    a node is built from the first located record of its key; a located
    record that follows a located record of the same key is dropped; and
    two records of one kind and numeric identifier give at most one node,
    exactly one when either of them is located. *)
Theorem dedup_first_located_wins (elements : list OsmElement.t) :
  NoDup (GraphNode.id <$> buildNodes elements) ∧
  (∀ n, n ∈ buildNodes elements ↔
     ∃ l1 el l2 la lo,
       elements = l1 ++ el :: l2 ∧
       resolveLat el = Some la ∧ resolveLon el = Some lo ∧
       n = elementNode el la lo ∧
       (∀ el', el' ∈ l1 → located el' → elementId el' ≠ elementId el)) ∧
  (∀ l1 el l2 el', elements = l1 ++ el :: l2 →
     el' ∈ l1 → located el' → elementId el' = elementId el →
     buildNodes elements = buildNodes (l1 ++ l2)) ∧
  (∀ r1 r2, OsmElement.type r1 = OsmElement.type r2 →
     OsmElement.id r1 = OsmElement.id r2 →
     (length (buildNodes [r1; r2]) ≤ 1)%nat ∧
     (located r1 ∨ located r2 → length (buildNodes [r1; r2]) = 1%nat)).
Proof.
  split_and!.
  - apply buildNodes_NoDup.
  - apply elem_of_buildNodes.
  - intros l1 el l2 el' -> Hin Hloc Hid. by eapply buildNodes_duplicate.
  - intros r1 r2 Hty Hid.
    assert (elementId r2 = elementId r1) as Hkey
      by (unfold elementId; by rewrite Hty, Hid).
    unfold buildNodes. simpl.
    destruct (decide (located r1)) as [[[la1 Hla1] [lo1 Hlo1]]|Hn1].
    + rewrite (addElement_fresh _ r1 la1 lo1) by (done || set_solver).
      rewrite addElement_seen by (simpl; rewrite Hkey; set_solver).
      simpl. split; [lia|done].
    + rewrite (addElement_skip _ r1 Hn1).
      destruct (decide (located r2)) as [[[la2 Hla2] [lo2 Hlo2]]|Hn2].
      * rewrite (addElement_fresh _ r2 la2 lo2) by (done || set_solver).
        simpl. split; [lia|done].
      * rewrite (addElement_skip _ r2 Hn2). simpl. split; [lia|tauto].
Qed.

(** C8, as stated, fails for a record without coordinates: such a record
    does not occupy its key.  A later record of the same kind and numeric
    identifier becomes the node, and two such records give no node. *)
Lemma dedup_first_occurrence_counterexample :
  OsmElement.type Sample.H1_nowhere = OsmElement.type Sample.H1_moved ∧
  OsmElement.id Sample.H1_nowhere = OsmElement.id Sample.H1_moved ∧
  buildNodes [Sample.H1_nowhere; Sample.H1_moved]
    = [elementNode Sample.H1_moved 40.7600%float (-73.9800)%float] ∧
  length (buildNodes [Sample.H1_nowhere; Sample.H1_nowhere]) ≠ 1%nat.
Proof. split_and!; [done|done|by vm_compute|by vm_compute]. Qed.



(** ** The derived graph *)

Lemma buildNycGraph_ids `{MathLib} elements :
  GraphNode.id <$> GraphData.nodes (buildNycGraph elements)
  = GraphNode.id <$> buildNodes elements.
Proof. unfold buildNycGraph. simpl. by rewrite <- list_fmap_compose. Qed.

Lemma buildNycGraph_NoDup `{MathLib} elements :
  NoDup (GraphNode.id <$> GraphData.nodes (buildNycGraph elements)).
Proof. rewrite buildNycGraph_ids. apply buildNodes_NoDup. Qed.

Lemma filter_none {A} (P : A → Prop) `{!∀ x, Decision (P x)} (l : list A) :
  (∀ x, x ∈ l → ¬ P x) → filter P l = [].
Proof.
  induction l as [|x l IH]; intros Hno; [done|].
  rewrite filter_cons, decide_False by (apply Hno; left).
  apply IH. intros y Hy. apply Hno. by right.
Qed.

(** C4: after the degree computation of a run, the degree of every node is
    the number of links of the run that have the node's identifier as
    source or as target; it is never negative, and it is 0 for a node that
    no link touches. *)
Theorem degree_counts_incident_links `{MathLib} (elements : list OsmElement.t)
    (n : GraphNode.t) :
  n ∈ GraphData.nodes (buildNycGraph elements) →
  GraphNode.degree n =
    Z.of_nat (length (filter
      (λ l, GraphLink.source l = GraphNode.id n ∨ GraphLink.target l = GraphNode.id n)
      (GraphData.links (buildNycGraph elements)))) ∧
  0 ≤ GraphNode.degree n ∧
  ((∀ l, l ∈ GraphData.links (buildNycGraph elements) →
      GraphLink.source l ≠ GraphNode.id n ∧ GraphLink.target l ≠ GraphNode.id n) →
   GraphNode.degree n = 0).
Proof.
  intros Hn.
  assert (GraphNode.degree n =
    Z.of_nat (length (filter
      (λ l, GraphLink.source l = GraphNode.id n ∨ GraphLink.target l = GraphNode.id n)
      (GraphData.links (buildNycGraph elements))))) as Hdeg.
  { unfold buildNycGraph in *. simpl in *.
    apply list_elem_of_fmap in Hn as (n0 & -> & Hn0). simpl.
    rewrite degreeMapOf_lookup, incident_count; [lia|].
    intros l Hl. eapply generateLinks_no_loop; [apply buildNodes_NoDup | done]. }
  split_and!; [done|lia|].
  intros Hnone. rewrite Hdeg.
  rewrite filter_none; [done|].
  intros l Hl [?|?]; by destruct (Hnone l Hl).
Qed.

(** C5: every link of a run goes from a Hotel to a Subway with the label
    TRANSIT_ACCESS or from a Hotel to an Attraction with the label
    WALKABLE_TO.  Both of its identifiers belong to nodes of the run, and to
    no other node of it, so no link joins two nodes of one class or a
    Subway and an Attraction. *)
Theorem links_respect_ontology `{MathLib} (elements : list OsmElement.t)
    (l : GraphLink.t) :
  l ∈ GraphData.links (buildNycGraph elements) →
  ∃ h x,
    h ∈ GraphData.nodes (buildNycGraph elements) ∧
    x ∈ GraphData.nodes (buildNycGraph elements) ∧
    GraphNode.id h = GraphLink.source l ∧ GraphNode.id x = GraphLink.target l ∧
    GraphNode.type h = Hotel ∧
    ((GraphNode.type x = Subway ∧ GraphLink.label l = TRANSIT_ACCESS) ∨
     (GraphNode.type x = Attraction ∧ GraphLink.label l = WALKABLE_TO)) ∧
    (∀ n, n ∈ GraphData.nodes (buildNycGraph elements) →
          GraphNode.id n = GraphLink.source l → n = h) ∧
    (∀ n, n ∈ GraphData.nodes (buildNycGraph elements) →
          GraphNode.id n = GraphLink.target l → n = x).
Proof.
  intros Hl. pose proof (buildNycGraph_NoDup elements) as Hnd.
  unfold buildNycGraph in *. simpl in *.
  set (dm := degreeMapOf (generateLinks (buildNodes elements))) in *.
  apply generateLinks_endpoints in Hl
    as (h & x & Hh & Hx & Hs & Ht & Hty & Hrule & _).
  assert (setDegree dm h ∈ setDegree dm <$> buildNodes elements) as Hh'
    by by apply list_elem_of_fmap_2.
  assert (setDegree dm x ∈ setDegree dm <$> buildNodes elements) as Hx'
    by by apply list_elem_of_fmap_2.
  exists (setDegree dm h), (setDegree dm x). split_and!; try done.
  - intros n Hn Hid.
    apply (NoDup_fmap_eq GraphNode.id (setDegree dm <$> buildNodes elements));
      try done. simpl. congruence.
  - intros n Hn Hid.
    apply (NoDup_fmap_eq GraphNode.id (setDegree dm <$> buildNodes elements));
      try done. simpl. congruence.
Qed.

(** C9: the links of a run are pairwise different in their (source,
    target, label) triple, whatever the input records are. *)
Theorem links_have_unique_triples `{MathLib} (elements : list OsmElement.t) :
  NoDup ((λ l, (GraphLink.source l, GraphLink.target l, GraphLink.label l))
           <$> GraphData.links (buildNycGraph elements)).
Proof.
  unfold buildNycGraph. simpl.
  apply NoDup_fmap_2_strong; [|apply generateLinks_NoDup, buildNodes_NoDup].
  intros l1 l2 (_ & _ & _ & _ & _ & _ & _ & _ & Hc1)%generateLinks_endpoints
               (_ & _ & _ & _ & _ & _ & _ & _ & Hc2)%generateLinks_endpoints Heq.
  destruct l1, l2. simpl in *. injection Heq as -> -> ->. by rewrite Hc1, Hc2.
Qed.

Lemma degree_counts_incident_links_witness :
  GraphNode.degree (setDegree (degreeMapOf (GraphData.links Sample.graph)) Sample.hotel1)
    = 2 ∧
  GraphNode.degree (setDegree (degreeMapOf (GraphData.links Sample.graph)) Sample.subway2)
    = 0.
Proof.
  split.
  - destruct (@degree_counts_incident_links refMath Sample.elements
                (setDegree (degreeMapOf (GraphData.links Sample.graph)) Sample.hotel1))
      as (Hdeg & _ & _); [vm_compute; left|].
    rewrite Hdeg. by vm_compute.
  - destruct (@degree_counts_incident_links refMath Sample.elements
                (setDegree (degreeMapOf (GraphData.links Sample.graph)) Sample.subway2))
      as (Hdeg & _ & _); [vm_compute; do 3 right; left|].
    rewrite Hdeg. by vm_compute.
Defined.

Lemma links_respect_ontology_witness :
  ∃ h x,
    h ∈ GraphData.nodes Sample.graph ∧ x ∈ GraphData.nodes Sample.graph ∧
    GraphNode.id h = "node-1" ∧ GraphNode.id x = "way-3" ∧
    GraphNode.type h = Hotel ∧
    ((GraphNode.type x = Subway ∧ WALKABLE_TO = TRANSIT_ACCESS) ∨
     (GraphNode.type x = Attraction ∧ WALKABLE_TO = WALKABLE_TO)) ∧
    (∀ n, n ∈ GraphData.nodes Sample.graph → GraphNode.id n = "node-1" → n = h) ∧
    (∀ n, n ∈ GraphData.nodes Sample.graph → GraphNode.id n = "way-3" → n = x).
Proof.
  apply (@links_respect_ontology refMath Sample.elements
           (walkableLink Sample.hotel1 Sample.museum1)).
  vm_compute. right. left.
Defined.

(** ** The ranking *)

Lemma byScoreDesc_trans a b c :
  byScoreDesc a b ≤ 0 → byScoreDesc b c ≤ 0 → byScoreDesc a c ≤ 0.
Proof. unfold byScoreDesc. lia. Qed.

Lemma byScoreDesc_total a b : ¬ byScoreDesc a b ≤ 0 → byScoreDesc b a ≤ 0.
Proof. unfold byScoreDesc. lia. Qed.

(** The candidates of a query, in the order of the node array. *)
Lemma queryResults_eq nodes rawLinks queryMode :
  rawLinks ≠ [] → nodes ≠ [] →
  queryResults nodes rawLinks queryMode =
    take 5 (sort byScoreDesc
      (filter (λ r, QueryResult.score r > 0)
        (scoreHotel rawLinks queryMode <$>
          filter (λ n, GraphNode.type n = Hotel) nodes))).
Proof.
  intros Hl Hn. unfold queryResults.
  rewrite !bool_decide_eq_false_2; [done|..]; by intros ?%length_zero_iff_nil.
Qed.

Lemma queryResults_sublist nodes rawLinks queryMode :
  queryResults nodes rawLinks queryMode `sublist_of`
    sort byScoreDesc
      (filter (λ r, QueryResult.score r > 0)
        (scoreHotel rawLinks queryMode <$>
          filter (λ n, GraphNode.type n = Hotel) nodes)).
Proof.
  unfold queryResults.
  destruct (_ || _); [apply sublist_nil_l | apply sublist_take].
Qed.

Lemma elem_of_queryResults nodes rawLinks queryMode r :
  r ∈ queryResults nodes rawLinks queryMode →
  QueryResult.hotel r ∈ nodes ∧ GraphNode.type (QueryResult.hotel r) = Hotel ∧
  r = scoreHotel rawLinks queryMode (QueryResult.hotel r) ∧ QueryResult.score r > 0.
Proof.
  intros Hr. eapply elem_of_sublist in Hr; [|apply queryResults_sublist].
  apply elem_of_sort, list_elem_of_filter in Hr as [Hpos Hr].
  apply list_elem_of_fmap in Hr as (h & -> & [Hty Hh]%list_elem_of_filter).
  by split_and!.
Qed.

(** The sort of the ranking does not depend on the algorithm: a list in
    descending order of score that keeps, for every score, the results of
    that score in their original order is the list computed by [sort]. *)
Lemma descending_tie_classes_eq (l1 l2 : list QueryResult.t) :
  ordered byScoreDesc l1 → ordered byScoreDesc l2 →
  (∀ s, filter (λ r, QueryResult.score r = s) l1
        = filter (λ r, QueryResult.score r = s) l2) →
  l1 = l2.
Proof.
  revert l2. induction l1 as [|x l1 IH]; intros l2 Ho1 Ho2 Hcls.
  - destruct l2 as [|y l2]; [done|].
    specialize (Hcls (QueryResult.score y)).
    by rewrite filter_nil, filter_cons, decide_True in Hcls.
  - destruct l2 as [|y l2].
    { specialize (Hcls (QueryResult.score x)).
      by rewrite filter_nil, filter_cons, decide_True in Hcls. }
    apply ordered_cons in Ho1 as [Hx Ho1], Ho2 as [Hy Ho2].
    assert (QueryResult.score x ≤ QueryResult.score y) as Hxy.
    { assert (x ∈ y :: l2) as [->|Hin]%elem_of_cons; [|lia|].
      - eapply (proj1 (list_elem_of_filter _ _ _)).
        rewrite <- (Hcls (QueryResult.score x)), filter_cons, decide_True by done. left.
      - specialize (Hy x Hin). unfold byScoreDesc in Hy. lia. }
    assert (QueryResult.score y ≤ QueryResult.score x) as Hyx.
    { assert (y ∈ x :: l1) as [->|Hin]%elem_of_cons; [|lia|].
      - eapply (proj1 (list_elem_of_filter _ _ _)).
        rewrite (Hcls (QueryResult.score y)), filter_cons, decide_True by done. left.
      - specialize (Hx y Hin). unfold byScoreDesc in Hx. lia. }
    assert (x = y) as <-.
    { specialize (Hcls (QueryResult.score x)).
      rewrite !filter_cons, !decide_True in Hcls by lia. by injection Hcls. }
    f_equal. apply IH; [done..|].
    intros s. specialize (Hcls s). rewrite !filter_cons in Hcls.
    case_decide; [by injection Hcls | done].
Qed.

Lemma sort_byScoreDesc_unique (l l' : list QueryResult.t) :
  ordered byScoreDesc l' →
  (∀ s, filter (λ r, QueryResult.score r = s) l'
        = filter (λ r, QueryResult.score r = s) l) →
  l' = sort byScoreDesc l.
Proof.
  intros Ho Hcls. apply descending_tie_classes_eq; [done| |].
  - apply ordered_sort; [apply byScoreDesc_trans | apply byScoreDesc_total].
  - intros s. rewrite Hcls, filter_sort; [done|].
    unfold byScoreDesc. intros a b Ha Hb. lia.
Qed.

(** C2: with [t] the number of raw links labelled TRANSIT_ACCESS that have
    the hotel's identifier as source or target, and [c] the same number for
    WALKABLE_TO, the score of the hotel is 2t+c, 2c+t, t+c, 3t+c and 3c+t
    in the modes transit, culture, balanced, hub and corridor; in the mode
    connected it is t+c when both counts are positive and 0 as soon as one
    of them is 0.  Every result of a query carries these counts and this
    score, whatever the degree field of its hotel says. *)
Theorem ranking_score_by_mode (rawLinks : list RawLink.t) (hotel : GraphNode.t) (t c : Z) :
  t = Z.of_nat (length (filter
        (λ l, (RawLink.source l = GraphNode.id hotel ∨ RawLink.target l = GraphNode.id hotel)
              ∧ RawLink.label l = TRANSIT_ACCESS) rawLinks)) →
  c = Z.of_nat (length (filter
        (λ l, (RawLink.source l = GraphNode.id hotel ∨ RawLink.target l = GraphNode.id hotel)
              ∧ RawLink.label l = WALKABLE_TO) rawLinks)) →
  QueryResult.score (scoreHotel rawLinks transit hotel) = 2 * t + c ∧
  QueryResult.score (scoreHotel rawLinks culture hotel) = 2 * c + t ∧
  QueryResult.score (scoreHotel rawLinks balanced hotel) = t + c ∧
  QueryResult.score (scoreHotel rawLinks hub hotel) = 3 * t + c ∧
  QueryResult.score (scoreHotel rawLinks corridor hotel) = 3 * c + t ∧
  (t > 0 → c > 0 → QueryResult.score (scoreHotel rawLinks connected hotel) = t + c) ∧
  (t = 0 ∨ c = 0 → QueryResult.score (scoreHotel rawLinks connected hotel) = 0) ∧
  (∀ nodes queryMode r, r ∈ queryResults nodes rawLinks queryMode →
     QueryResult.hotel r = hotel →
     QueryResult.transitCount r = t ∧ QueryResult.cultureCount r = c ∧
     QueryResult.score r = QueryResult.score (scoreHotel rawLinks queryMode hotel)).
Proof.
  intros Ht Hc.
  assert (t = countTouching rawLinks (GraphNode.id hotel) TRANSIT_ACCESS) as Ht' by done.
  assert (c = countTouching rawLinks (GraphNode.id hotel) WALKABLE_TO) as Hc' by done.
  unfold scoreHotel. simpl. rewrite <- Ht', <- Hc'. clear Ht Hc.
  split_and!; try (unfold modeScore; simpl; lia).
  - intros Htp Hcp. unfold modeScore. simpl.
    by rewrite !bool_decide_eq_true_2 by done.
  - intros Hz. unfold modeScore. simpl.
    destruct Hz as [-> | ->]; [done|]. by rewrite andb_false_r.
  - intros nodes queryMode r (_ & _ & -> & _)%elem_of_queryResults Hh.
    simpl in Hh. subst hotel. simpl. by rewrite Ht', Hc'.
Qed.

Lemma ranking_score_by_mode_witness :
  QueryResult.score (scoreHotel Sample.rawLinks transit Sample.hotel1) = 2 * 1 + 1 ∧
  QueryResult.score (scoreHotel Sample.rawLinks corridor Sample.hotel1) = 3 * 1 + 1.
Proof.
  destruct (ranking_score_by_mode Sample.rawLinks Sample.hotel1 1 1)
    as (Htransit & _ & _ & _ & Hcorridor & _); [by vm_compute | by vm_compute |].
  by split.
Defined.

(** C3: whatever the nodes, the raw links and the mode, the ranking holds
    only hotels of the node array, at most five of them, each with a
    strictly positive score (a candidate whose score is not positive is
    left out), in non-increasing order of score; without nodes or without
    links it is the empty list. *)
Theorem ranking_shape (nodes : list GraphNode.t) (rawLinks : list RawLink.t)
    (queryMode : QueryMode) :
  (∀ r, r ∈ queryResults nodes rawLinks queryMode →
     QueryResult.hotel r ∈ nodes ∧ GraphNode.type (QueryResult.hotel r) = Hotel ∧
     QueryResult.score r > 0) ∧
  (∀ h, QueryResult.score (scoreHotel rawLinks queryMode h) ≤ 0 →
     scoreHotel rawLinks queryMode h ∉ queryResults nodes rawLinks queryMode) ∧
  (length (queryResults nodes rawLinks queryMode) ≤ 5)%nat ∧
  (∀ i j a b, (i < j)%nat →
     queryResults nodes rawLinks queryMode !! i = Some a →
     queryResults nodes rawLinks queryMode !! j = Some b →
     QueryResult.score b ≤ QueryResult.score a) ∧
  queryResults [] rawLinks queryMode = [] ∧
  queryResults nodes [] queryMode = [].
Proof.
  split_and!.
  - intros r (? & ? & _ & ?)%elem_of_queryResults. by split_and!.
  - intros h Hle (_ & _ & _ & Hpos)%elem_of_queryResults. lia.
  - unfold queryResults. destruct (_ || _); simpl; [lia|].
    rewrite length_take. lia.
  - unfold queryResults. destruct (_ || _); [by intros i j a b _ ?|].
    intros i j a b Hij Ha Hb.
    pose proof (ordered_take byScoreDesc 5 _
                  (ordered_sort byScoreDesc byScoreDesc_trans byScoreDesc_total _)
                  i j a b Hij Ha Hb) as Hord.
    unfold byScoreDesc in Hord. lia.
  - unfold queryResults. simpl. by rewrite orb_true_r.
  - done.
Qed.

(** C10: when two results of a ranking have equal scores, their hotels
    stand in the node array in the same order as the results stand in the
    ranking: the descending sort is stable, and the ranking is a function
    of the nodes, the raw links and the mode alone. *)
Theorem ranking_ties_keep_input_order (nodes : list GraphNode.t)
    (rawLinks : list RawLink.t) (queryMode : QueryMode) (a b : QueryResult.t) :
  [a; b] `sublist_of` queryResults nodes rawLinks queryMode →
  QueryResult.score a = QueryResult.score b →
  [QueryResult.hotel a; QueryResult.hotel b] `sublist_of` nodes.
Proof.
  intros Hab Htie.
  set (tied := λ r, QueryResult.score r = QueryResult.score a).
  set (hotels := filter (λ n, GraphNode.type n = Hotel) nodes).
  assert ([a; b] `sublist_of` scoreHotel rawLinks queryMode <$> hotels) as Hcand.
  { transitivity (filter tied [a; b]).
    { rewrite !filter_cons, !decide_True by done. done. }
    etransitivity; [by apply sublist_filter_mono, Hab|].
    etransitivity; [apply sublist_filter_mono, queryResults_sublist|].
    rewrite filter_sort.
    - etransitivity; apply sublist_filter.
    - unfold tied, byScoreDesc. intros x y Hx Hy. lia. }
  apply sublist_fmap_inv in Hcand as (k & Hk & Heq).
  destruct k as [|h1 [|h2 [|? ?]]]; try done.
  injection Heq as -> ->. simpl.
  transitivity hotels; [done | apply sublist_filter].
Qed.

Lemma ranking_ties_keep_input_order_witness :
  [Sample.hotel1; Sample.hotel2] `sublist_of` Sample.nodes.
Proof.
  apply (ranking_ties_keep_input_order Sample.nodes Sample.rawLinks transit
           (scoreHotel Sample.rawLinks transit Sample.hotel1)
           (scoreHotel Sample.rawLinks transit Sample.hotel2)).
  - vm_compute. repeat constructor.
  - by vm_compute.
Defined.

(** * Further properties of the derivation pipeline *)

(** ** The entity builder, beyond the claims *)

Lemma buildNodes_app_prefix els more :
  buildNodes els `prefix_of` buildNodes (els ++ more).
Proof.
  induction more as [|x more IH] using rev_ind.
  - by rewrite app_nil_r.
  - rewrite app_assoc, buildNodes_snoc.
    destruct (resolveLat x), (resolveLon x); try done.
    case_bool_decide; [done|]. by apply prefix_app_r.
Qed.

Lemma foldl_addElement_located st els :
  foldl addElement st (filter located els) = foldl addElement st els.
Proof.
  revert st. induction els as [|el els IH]; intros st; [done|].
  rewrite filter_cons. case_decide as Hloc; simpl; [done|].
  by rewrite addElement_skip.
Qed.

(** Records whose keys the output already holds are absorbed. *)
Lemma buildNodes_absorb els more :
  (∀ el, el ∈ more → located el → elementId el ∈ GraphNode.id <$> buildNodes els) →
  buildNodes (els ++ more) = buildNodes els.
Proof.
  induction more as [|x more IH] using rev_ind; intros Hseen.
  - by rewrite app_nil_r.
  - assert (buildNodes (els ++ more) = buildNodes els) as Heq.
    { apply IH. intros el Hel. apply Hseen, elem_of_app. by left. }
    rewrite app_assoc, buildNodes_snoc, Heq.
    destruct (resolveLat x) as [la|] eqn:Hla, (resolveLon x) as [lo|] eqn:Hlo; try done.
    rewrite bool_decide_eq_true_2; [done|].
    apply Hseen; [apply elem_of_app; right; by left|]. split; by eexists.
Qed.

Lemma length_filter_subseteq {A} (P : A → Prop) `{!∀ x, Decision (P x)} (l k : list A) :
  NoDup l → (∀ x, x ∈ l → x ∈ k) → (length (filter P l) ≤ length (filter P k))%nat.
Proof.
  intros Hnd Hsub. apply submseteq_length, NoDup_submseteq; [by apply NoDup_filter|].
  intros x [? ?]%list_elem_of_filter. apply list_elem_of_filter. auto.
Qed.

(** X1: records that arrive later never remove a node or a link, and change
    an earlier node in nothing but its degree, which they can only raise:
    the nodes built from a sequence are a prefix of the nodes built from
    any extension of it; the node at each position of its graph is, in the
    graph of the extension, at the same position with the same identifier,
    name, class, coordinates and colour and a degree that is not smaller;
    and every link of its graph is a link of the graph of the extension. *)
Theorem graph_grows_with_input `{MathLib} (elements more : list OsmElement.t) :
  buildNodes elements `prefix_of` buildNodes (elements ++ more) ∧
  (∀ i n, GraphData.nodes (buildNycGraph elements) !! i = Some n →
     ∃ n', GraphData.nodes (buildNycGraph (elements ++ more)) !! i = Some n' ∧
       GraphNode.id n' = GraphNode.id n ∧ GraphNode.name n' = GraphNode.name n ∧
       GraphNode.type n' = GraphNode.type n ∧
       GraphNode.lat n' = GraphNode.lat n ∧ GraphNode.lon n' = GraphNode.lon n ∧
       GraphNode.color n' = GraphNode.color n ∧
       GraphNode.degree n ≤ GraphNode.degree n') ∧
  (∀ l, l ∈ GraphData.links (buildNycGraph elements) →
        l ∈ GraphData.links (buildNycGraph (elements ++ more))).
Proof.
  pose proof (buildNodes_app_prefix elements more) as Hpre.
  assert (∀ l, l ∈ generateLinks (buildNodes elements) →
               l ∈ generateLinks (buildNodes (elements ++ more))) as Hlinks.
  { intros l. rewrite !elem_of_generateLinks.
    intros (h & x & Hh & Hx & Hrest). exists h, x.
    destruct Hpre as [k ->]. rewrite !elem_of_app. tauto. }
  split_and!; [done| |done].
  unfold buildNycGraph. simpl. intros i n Hi.
  apply list_lookup_fmap_Some in Hi as (n0 & -> & Hn0).
  exists (setDegree (degreeMapOf (generateLinks (buildNodes (elements ++ more)))) n0).
  split_and!; try done.
  - rewrite list_lookup_fmap. destruct Hpre as [k ->].
    by rewrite (lookup_app_l_Some _ _ _ _ Hn0).
  - simpl. rewrite !degreeMapOf_lookup.
    pose proof (generateLinks_NoDup _ (buildNodes_NoDup elements)) as Hnd.
    pose proof (length_filter_subseteq
                  (λ l, GraphLink.source l = GraphNode.id n0) _ _ Hnd Hlinks).
    pose proof (length_filter_subseteq
                  (λ l, GraphLink.target l = GraphNode.id n0) _ _ Hnd Hlinks).
    lia.
Qed.

(** X2: a batch that is delivered twice, or followed by any records whose
    keys it already delivered with coordinates, gives the nodes of the
    batch alone. *)
Theorem redelivery_is_absorbed (elements more : list OsmElement.t) :
  (∀ el, el ∈ more → located el →
     ∃ el', el' ∈ elements ∧ located el' ∧ elementId el' = elementId el) →
  buildNodes (elements ++ more) = buildNodes elements ∧
  buildNodes (elements ++ elements) = buildNodes elements.
Proof.
  intros Hseen. split.
  - apply buildNodes_absorb. intros el Hel Hloc.
    apply buildNodes_ids. by apply Hseen.
  - apply buildNodes_absorb. intros el Hel Hloc.
    apply buildNodes_ids. eauto.
Qed.

Lemma redelivery_is_absorbed_witness :
  buildNodes (Sample.elements ++ [Sample.H1_moved; Sample.H1_nowhere])
    = buildNodes Sample.elements.
Proof.
  apply (redelivery_is_absorbed Sample.elements [Sample.H1_moved; Sample.H1_nowhere]).
  intros el [->|[->|[]%elem_of_nil]%elem_of_cons]%elem_of_cons Hloc.
  - exists Sample.H1. split_and!; [left | split; by eexists | done].
  - exfalso. revert Hloc. by vm_compute; intros [[? ?] _].
Defined.

(** X3: the number of nodes is the number of distinct identity keys among
    the records whose coordinates resolve; it never exceeds the number of
    records. *)
Theorem node_count_is_distinct_located_keys (elements : list OsmElement.t) :
  length (buildNodes elements) =
    size (list_to_set (elementId <$> filter located elements) : gset string) ∧
  (length (buildNodes elements) ≤ length elements)%nat.
Proof.
  assert (length (buildNodes elements) =
          size (list_to_set (elementId <$> filter located elements) : gset string)) as Hlen.
  { rewrite <- (length_fmap GraphNode.id).
    rewrite <- (size_list_to_set (C := gset string)) by apply buildNodes_NoDup.
    f_equal. apply set_eq. intros k.
    rewrite !elem_of_list_to_set, buildNodes_ids, list_elem_of_fmap.
    setoid_rewrite list_elem_of_filter. split.
    - intros (el & ? & ? & <-). by exists el.
    - intros (el & -> & ? & ?). by exists el. }
  split; [done|]. clear Hlen.
  induction elements as [|x elements IH] using rev_ind; [done|].
  rewrite buildNodes_snoc, length_app. simpl.
  destruct (resolveLat x), (resolveLon x); try lia.
  case_bool_decide; [lia|]. rewrite length_app. simpl. lia.
Qed.

(** X4: records without usable coordinates can be filtered out beforehand:
    the builder gives the same nodes on the located records alone. *)
Theorem unlocated_records_are_inert (elements : list OsmElement.t) :
  buildNodes (filter located elements) = buildNodes elements.
Proof. unfold buildNodes. by rewrite foldl_addElement_located. Qed.

(** X5: every node is built from the first located record of its key: it
    has that record's key as identifier, the record's [name] tag as name
    (even an empty one), else its [name:en] tag, else "OSM " followed by
    the numeric identifier; its class is the classification of the record's
    tags, its colour the colour of that class, and its degree is 0 until
    the degree computation. *)
Theorem node_fields_from_first_located_record (elements : list OsmElement.t)
    (n : GraphNode.t) :
  n ∈ buildNodes elements →
  ∃ l1 el l2,
    elements = l1 ++ el :: l2 ∧ located el ∧
    (∀ el', el' ∈ l1 → located el' → elementId el' ≠ elementId el) ∧
    GraphNode.id n = elementId el ∧
    (∀ s, default ∅ (OsmElement.tags el) !! "name" = Some s → GraphNode.name n = s) ∧
    (default ∅ (OsmElement.tags el) !! "name" = None →
       ∀ s, default ∅ (OsmElement.tags el) !! "name:en" = Some s → GraphNode.name n = s) ∧
    (default ∅ (OsmElement.tags el) !! "name" = None →
     default ∅ (OsmElement.tags el) !! "name:en" = None →
       GraphNode.name n = "OSM " +:+ pretty (OsmElement.id el)) ∧
    GraphNode.type n = classifyOsmElement (default ∅ (OsmElement.tags el)) ∧
    GraphNode.color n = NODE_COLORS (GraphNode.type n) ∧
    GraphNode.degree n = 0.
Proof.
  intros (l1 & el & l2 & la & lo & -> & Hla & Hlo & -> & Hfirst)%elem_of_buildNodes.
  exists l1, el, l2. simpl. unfold elementName.
  split_and!; try done.
  - intros s Hs. by rewrite Hs.
  - intros Hn s Hs. by rewrite Hn, Hs.
  - intros Hn Hen. by rewrite Hn, Hen.
Qed.

Lemma node_fields_from_first_located_record_witness :
  ∃ l1 el l2,
    Sample.elements = l1 ++ el :: l2 ∧ located el ∧
    (∀ el', el' ∈ l1 → located el' → elementId el' ≠ elementId el) ∧
    GraphNode.id Sample.subway1 = elementId el ∧
    (∀ s, default ∅ (OsmElement.tags el) !! "name" = Some s →
          GraphNode.name Sample.subway1 = s) ∧
    (default ∅ (OsmElement.tags el) !! "name" = None →
       ∀ s, default ∅ (OsmElement.tags el) !! "name:en" = Some s →
            GraphNode.name Sample.subway1 = s) ∧
    (default ∅ (OsmElement.tags el) !! "name" = None →
     default ∅ (OsmElement.tags el) !! "name:en" = None →
       GraphNode.name Sample.subway1 = "OSM " +:+ pretty (OsmElement.id el)) ∧
    GraphNode.type Sample.subway1 = classifyOsmElement (default ∅ (OsmElement.tags el)) ∧
    GraphNode.color Sample.subway1 = NODE_COLORS (GraphNode.type Sample.subway1) ∧
    GraphNode.degree Sample.subway1 = 0.
Proof.
  apply (node_fields_from_first_located_record Sample.elements Sample.subway1).
  vm_compute. right. left.
Defined.

(** X6: in the graph of a run every node has the colour of its class and
    every link the colour of its label, and the snapshot the page keeps of
    a link has the same source, target, label and colour. *)
Theorem colours_follow_class_and_label `{MathLib} (elements : list OsmElement.t) :
  (∀ n, n ∈ GraphData.nodes (buildNycGraph elements) →
        GraphNode.color n = NODE_COLORS (GraphNode.type n)) ∧
  (∀ l, l ∈ GraphData.links (buildNycGraph elements) →
        GraphLink.color l = EDGE_COLORS (GraphLink.label l) ∧
        RawLink.color (snapshot l) = EDGE_COLORS (RawLink.label (snapshot l)) ∧
        RawLink.source (snapshot l) = GraphLink.source l ∧
        RawLink.target (snapshot l) = GraphLink.target l ∧
        RawLink.label (snapshot l) = GraphLink.label l ∧
        RawLink.color (snapshot l) = GraphLink.color l).
Proof.
  unfold buildNycGraph. simpl. split.
  - intros n (n0 & -> & Hn0)%list_elem_of_fmap. simpl.
    by apply elem_of_buildNodes in Hn0 as (? & ? & ? & ? & ? & _ & _ & _ & -> & _).
  - intros l (_ & _ & _ & _ & _ & _ & _ & _ & Hc)%generateLinks_endpoints.
    by split_and!.
Qed.

(** X7: two records have the same identity key exactly when they have the
    same kind and the same numeric identifier, so a point and an areal
    feature that share a number get different node identifiers. *)
Theorem identity_key_separates_kind_and_number (el1 el2 : OsmElement.t) :
  elementId el1 = elementId el2 ↔
  OsmElement.type el1 = OsmElement.type el2 ∧ OsmElement.id el1 = OsmElement.id el2.
Proof.
  split; [apply elementId_inj|].
  intros [Hty Hid]. unfold elementId. by rewrite Hty, Hid.
Qed.

(** ** Degrees and neighbour counts *)

Lemma sumZ_cons {A} (f : A → Z) x l : sumZ f (x :: l) = f x + sumZ f l.
Proof. done. Qed.

Lemma sumZ_add {A} (f g : A → Z) l :
  sumZ (λ x, f x + g x) l = sumZ f l + sumZ g l.
Proof. induction l as [|x l IH]; [done|]. rewrite !sumZ_cons, IH. lia. Qed.

Lemma sumZ_fmap {A B} (f : B → Z) (g : A → B) l :
  sumZ f (g <$> l) = sumZ (f ∘ g) l.
Proof. induction l as [|x l IH]; [done|]. by rewrite fmap_cons, !sumZ_cons, IH. Qed.

Lemma sumZ_ext {A} (f g : A → Z) l :
  (∀ x, x ∈ l → f x = g x) → sumZ f l = sumZ g l.
Proof.
  induction l as [|x l IH]; intros Hfg; [done|].
  rewrite !sumZ_cons, Hfg by left. rewrite IH; [done|].
  intros y Hy. apply Hfg. by right.
Qed.

Lemma sumZ_zero {A} (l : list A) : sumZ (λ _, 0) l = 0.
Proof. induction l as [|x l IH]; [done|]. by rewrite sumZ_cons, IH. Qed.

(** Among nodes with distinct identifiers, exactly one carries a given
    identifier of theirs. *)
Lemma sumZ_indicator (nodes : list GraphNode.t) k :
  NoDup (GraphNode.id <$> nodes) →
  sumZ (λ n, if decide (k = GraphNode.id n) then 1 else 0) nodes =
    if decide (k ∈ GraphNode.id <$> nodes) then 1 else 0.
Proof.
  induction nodes as [|n nodes IH]; [done|].
  rewrite fmap_cons, NoDup_cons. intros [Hni Hnd]. rewrite sumZ_cons, IH by done.
  destruct (decide (k = GraphNode.id n)) as [->|Hne].
  - rewrite decide_False by done. rewrite decide_True by left. done.
  - destruct (decide (k ∈ GraphNode.id <$> nodes)) as [Hin|Hnin].
    + rewrite decide_True by by right. done.
    + rewrite decide_False; [done|]. by intros [?|?]%elem_of_cons.
Qed.

Lemma sumZ_count (key : GraphLink.t → string) (nodes : list GraphNode.t)
    (links : list GraphLink.t) :
  NoDup (GraphNode.id <$> nodes) →
  (∀ l, l ∈ links → key l ∈ GraphNode.id <$> nodes) →
  sumZ (λ n, Z.of_nat (length (filter (λ l, key l = GraphNode.id n) links))) nodes
  = Z.of_nat (length links).
Proof.
  intros Hnd. induction links as [|l links IH]; intros Hkey.
  - apply sumZ_zero.
  - rewrite (sumZ_ext _
      (λ n, (if decide (key l = GraphNode.id n) then 1 else 0)
            + Z.of_nat (length (filter (λ l0, key l0 = GraphNode.id n) links)))).
    + rewrite sumZ_add, sumZ_indicator, IH by (done || (intros; apply Hkey; by right)).
      rewrite decide_True by (apply Hkey; left). simpl. lia.
    + intros n _. rewrite filter_cons. case_decide; simpl; lia.
Qed.

Lemma buildNycGraph_degree `{MathLib} elements n :
  n ∈ GraphData.nodes (buildNycGraph elements) →
  GraphNode.degree n =
    Z.of_nat (length (filter (λ l, GraphLink.source l = GraphNode.id n)
                             (GraphData.links (buildNycGraph elements))))
    + Z.of_nat (length (filter (λ l, GraphLink.target l = GraphNode.id n)
                               (GraphData.links (buildNycGraph elements)))).
Proof.
  unfold buildNycGraph. simpl. intros (n0 & -> & _)%list_elem_of_fmap. simpl.
  apply degreeMapOf_lookup.
Qed.

Lemma links_of_run `{MathLib} elements l :
  l ∈ GraphData.links (buildNycGraph elements) →
  ∃ h x,
    h ∈ GraphData.nodes (buildNycGraph elements) ∧
    x ∈ GraphData.nodes (buildNycGraph elements) ∧
    GraphNode.id h = GraphLink.source l ∧ GraphNode.id x = GraphLink.target l ∧
    GraphNode.type h = Hotel ∧
    ((GraphNode.type x = Subway ∧ GraphLink.label l = TRANSIT_ACCESS) ∨
     (GraphNode.type x = Attraction ∧ GraphLink.label l = WALKABLE_TO)).
Proof.
  unfold buildNycGraph. simpl.
  intros (h & x & Hh & Hx & Hs & Ht & Hty & Hrule & _)%generateLinks_endpoints.
  set (dm := degreeMapOf _).
  exists (setDegree dm h), (setDegree dm x).
  split_and!; try done; by apply list_elem_of_fmap_2.
Qed.

(** X8: the degrees of a run add up to twice the number of its links: every
    link is counted at exactly two nodes of the run. *)
Theorem degrees_sum_to_twice_the_links `{MathLib} (elements : list OsmElement.t) :
  sumZ GraphNode.degree (GraphData.nodes (buildNycGraph elements))
  = 2 * Z.of_nat (length (GraphData.links (buildNycGraph elements))).
Proof.
  pose proof (buildNycGraph_NoDup elements) as Hnd.
  rewrite (sumZ_ext _ _ _ (buildNycGraph_degree elements)).
  rewrite sumZ_add.
  rewrite (sumZ_count GraphLink.source), (sumZ_count GraphLink.target); [lia|done| |done|].
  - intros l (h & x & _ & Hx & _ & <- & _)%links_of_run.
    by apply list_elem_of_fmap_2.
  - intros l (h & x & Hh & _ & <- & _)%links_of_run.
    by apply list_elem_of_fmap_2.
Qed.

Lemma length_filter_fmap {A B} (P : B → Prop) `{!∀ y, Decision (P y)} (f : A → B) l :
  length (filter P (f <$> l)) = length (filter (P ∘ f) l).
Proof.
  induction l as [|x l IH]; [done|].
  rewrite fmap_cons, !filter_cons. simpl. case_decide; simpl; by rewrite IH.
Qed.

Lemma length_filter_ext {A} (P Q : A → Prop) `{!∀ x, Decision (P x)}
    `{!∀ x, Decision (Q x)} (l : list A) :
  (∀ x, x ∈ l → P x ↔ Q x) → length (filter P l) = length (filter Q l).
Proof.
  induction l as [|x l IH]; intros Hpq; [done|].
  rewrite !filter_cons.
  assert (P x ↔ Q x) as Hx by (apply Hpq; left).
  specialize (IH (λ y Hy, Hpq y (list_elem_of_further _ _ _ Hy))).
  destruct (decide (P x)), (decide (Q x)); simpl; tauto || lia.
Qed.

(** Every incident link carries one of the two labels. *)
Lemma incident_by_label (links : list GraphLink.t) k :
  length (filter (λ l, GraphLink.source l = k ∨ GraphLink.target l = k) links) =
  (length (filter (touches k TRANSIT_ACCESS) (snapshot <$> links))
   + length (filter (touches k WALKABLE_TO) (snapshot <$> links)))%nat.
Proof.
  induction links as [|l links IH]; [done|].
  rewrite fmap_cons, !filter_cons.
  destruct (decide (GraphLink.source l = k ∨ GraphLink.target l = k)) as [Hi|Hi],
           (decide (touches k TRANSIT_ACCESS (snapshot l))) as [Ht|Ht],
           (decide (touches k WALKABLE_TO (snapshot l))) as [Hw|Hw];
    simpl; rewrite IH; try lia; exfalso;
    unfold touches in *; simpl in *; destruct (GraphLink.label l); intuition congruence.
Qed.

(** X9: in a run the degree of a node is the sum of its two per-label
    counts over the snapshot of the links, so the score of a hotel in the
    mode balanced is its degree. *)
Theorem degree_is_transit_plus_culture `{MathLib} (elements : list OsmElement.t)
    (n : GraphNode.t) :
  n ∈ GraphData.nodes (buildNycGraph elements) →
  GraphNode.degree n =
    countTouching (snapshot <$> GraphData.links (buildNycGraph elements))
                  (GraphNode.id n) TRANSIT_ACCESS
    + countTouching (snapshot <$> GraphData.links (buildNycGraph elements))
                    (GraphNode.id n) WALKABLE_TO ∧
  QueryResult.score
    (scoreHotel (snapshot <$> GraphData.links (buildNycGraph elements)) balanced n)
    = GraphNode.degree n.
Proof.
  intros Hn.
  assert (GraphNode.degree n =
    countTouching (snapshot <$> GraphData.links (buildNycGraph elements))
                  (GraphNode.id n) TRANSIT_ACCESS
    + countTouching (snapshot <$> GraphData.links (buildNycGraph elements))
                    (GraphNode.id n) WALKABLE_TO) as Hdeg.
  { rewrite (buildNycGraph_degree elements n Hn). unfold countTouching.
    rewrite <- Nat2Z.inj_add, <- Nat2Z.inj_add. f_equal.
    rewrite <- incident_by_label. symmetry. apply incident_count.
    intros l Hl. unfold buildNycGraph in Hl. simpl in Hl.
    eapply generateLinks_no_loop; [apply buildNodes_NoDup | done]. }
  split; [done|]. by rewrite Hdeg.
Qed.

Lemma degree_is_transit_plus_culture_witness :
  GraphNode.degree (setDegree (degreeMapOf (GraphData.links Sample.graph)) Sample.hotel2)
    = countTouching Sample.rawLinks "way-5" TRANSIT_ACCESS
      + countTouching Sample.rawLinks "way-5" WALKABLE_TO ∧
  QueryResult.score
    (scoreHotel Sample.rawLinks balanced
       (setDegree (degreeMapOf (GraphData.links Sample.graph)) Sample.hotel2))
  = GraphNode.degree
      (setDegree (degreeMapOf (GraphData.links Sample.graph)) Sample.hotel2).
Proof.
  apply (@degree_is_transit_plus_culture refMath Sample.elements
           (setDegree (degreeMapOf (GraphData.links Sample.graph)) Sample.hotel2)).
  vm_compute. do 4 right. left.
Defined.

Lemma length_filter_bind_cond {A B} (P : B → Prop) `{!∀ y, Decision (P y)}
    (c : A → bool) (mk : A → B) (l : list A) :
  length (filter P (l ≫= λ a, if c a then [mk a] else []))
  = length (filter (λ a, c a = true ∧ P (mk a)) l).
Proof.
  induction l as [|x l IH]; [done|].
  rewrite bind_cons, filter_app, length_app, IH, (filter_cons _ x l).
  destruct (c x) eqn:Hc.
  - rewrite filter_cons, filter_nil.
    destruct (decide (P (mk x))).
    + rewrite decide_True by done. done.
    + rewrite decide_False by tauto. done.
  - rewrite filter_nil, decide_False by (intros [? _]; done). done.
Qed.

Section NeighbourCounts.
Context `{MathLib}.
Context (nodes : list GraphNode.t) (h : GraphNode.t) (label : EdgeLabel).
Hypothesis nodes_NoDup : NoDup (GraphNode.id <$> nodes).
Hypothesis h_in : h ∈ nodes.
Hypothesis h_hotel : GraphNode.type h = Hotel.

Let subways := filter (λ n, GraphNode.type n = Subway) nodes.
Let attractions := filter (λ n, GraphNode.type n = Attraction) nodes.
Let T := λ l : GraphLink.t, touches (GraphNode.id h) label (snapshot l).

Lemma other_hotel_no_touch h' :
  h' ∈ nodes → GraphNode.id h' ≠ GraphNode.id h →
  filter T (hotelLinks subways attractions h') = [].
Proof.
  intros Hh' Hne. apply filter_none. intros l Hl [[Hs|Ht] _].
  - apply elem_of_hotelLinks in Hl as [(s & _ & _ & ->)|(a & _ & _ & ->)]; done.
  - apply elem_of_hotelLinks in Hl
      as [(s & [Hty Hs]%list_elem_of_filter & _ & ->)
         |(a & [Hty Ha]%list_elem_of_filter & _ & ->)]; simpl in Ht.
    + assert (s = h) as -> by by apply (NoDup_fmap_eq GraphNode.id nodes).
      congruence.
    + assert (a = h) as -> by by apply (NoDup_fmap_eq GraphNode.id nodes).
      congruence.
Qed.

Lemma touch_count_over_hotels (hs : list GraphNode.t) :
  (∀ h', h' ∈ hs → h' ∈ nodes) → NoDup (GraphNode.id <$> hs) →
  length (filter T (hs ≫= hotelLinks subways attractions)) =
    if decide (GraphNode.id h ∈ GraphNode.id <$> hs)
    then length (filter T (hotelLinks subways attractions h)) else 0%nat.
Proof.
  induction hs as [|h' hs IH]; intros Hin Hnd; [done|].
  rewrite fmap_cons in Hnd. apply NoDup_cons in Hnd as [Hni Hnd].
  rewrite bind_cons, filter_app, length_app.
  rewrite IH by (done || (intros; apply Hin; by right)).
  destruct (decide (GraphNode.id h' = GraphNode.id h)) as [Heq|Hne].
  - assert (h' = h) as -> by (apply (NoDup_fmap_eq GraphNode.id nodes); try done;
                              apply Hin; left).
    rewrite decide_False by done. rewrite decide_True by left. lia.
  - rewrite other_hotel_no_touch by (done || (apply Hin; left)). simpl.
    destruct (decide (GraphNode.id h ∈ GraphNode.id <$> hs)) as [Hi|Hi].
    + rewrite decide_True by by right. done.
    + rewrite decide_False; [done|]. intros [?|?]%elem_of_cons; [congruence|done].
Qed.

Lemma touch_count_generateLinks :
  length (filter T (generateLinks nodes))
  = length (filter T (hotelLinks subways attractions h)).
Proof.
  unfold generateLinks. fold subways attractions.
  rewrite touch_count_over_hotels.
  - rewrite decide_True; [done|].
    apply list_elem_of_fmap_2. by apply list_elem_of_filter.
  - by intros h' [_ ?]%list_elem_of_filter.
  - by apply filter_ids_NoDup.
Qed.

Lemma touch_count_hotelLinks :
  length (filter T (hotelLinks subways attractions h)) =
    match label with
    | TRANSIT_ACCESS =>
        length (filter (λ s, GraphNode.type s = Subway ∧
                             (distance h s <=? 300)%float = true) nodes)
    | WALKABLE_TO =>
        length (filter (λ a, GraphNode.type a = Attraction ∧
                             (distance h a <=? 500)%float = true) nodes)
    end.
Proof.
  unfold hotelLinks. rewrite filter_app, length_app.
  rewrite !length_filter_bind_cond. unfold subways, attractions.
  rewrite !list_filter_filter. unfold T, touches. simpl.
  destruct label.
  - match goal with
    | |- (_ + length (filter ?Q nodes))%nat = _ =>
        rewrite (filter_none Q nodes) by (intros ? _ [[_ [_ ?]] _]; done)
    end.
    rewrite Nat.add_0_r. apply length_filter_ext. intros; intuition.
  - match goal with
    | |- (length (filter ?Q nodes) + _)%nat = _ =>
        rewrite (filter_none Q nodes) by (intros ? _ [[_ [_ ?]] _]; done)
    end.
    simpl. apply length_filter_ext. intros; intuition.
Qed.
End NeighbourCounts.

(** X10: in a run, the transit count the query engine computes for a hotel
    is the number of subway nodes of the run within 300 metres of it, and
    its culture count is the number of attraction nodes within 500 metres:
    only the hotel's own links touch its identifier. *)
Theorem hotel_counts_are_neighbours_in_range `{MathLib} (elements : list OsmElement.t)
    (queryMode : QueryMode) (h : GraphNode.t) :
  h ∈ GraphData.nodes (buildNycGraph elements) → GraphNode.type h = Hotel →
  QueryResult.transitCount
    (scoreHotel (snapshot <$> GraphData.links (buildNycGraph elements)) queryMode h)
  = Z.of_nat (length (filter
      (λ s, GraphNode.type s = Subway ∧ (distance h s <=? 300)%float = true)
      (GraphData.nodes (buildNycGraph elements)))) ∧
  QueryResult.cultureCount
    (scoreHotel (snapshot <$> GraphData.links (buildNycGraph elements)) queryMode h)
  = Z.of_nat (length (filter
      (λ a, GraphNode.type a = Attraction ∧ (distance h a <=? 500)%float = true)
      (GraphData.nodes (buildNycGraph elements)))).
Proof.
  unfold buildNycGraph. simpl. set (dm := degreeMapOf _).
  intros (h0 & -> & Hh0)%list_elem_of_fmap Hty. simpl in Hty.
  unfold countTouching. simpl.
  pose proof (buildNodes_NoDup elements) as Hnd.
  split; f_equal; rewrite !length_filter_fmap.
  - rewrite (touch_count_generateLinks _ h0 TRANSIT_ACCESS Hnd Hh0 Hty).
    by rewrite (touch_count_hotelLinks _ h0 TRANSIT_ACCESS).
  - rewrite (touch_count_generateLinks _ h0 WALKABLE_TO Hnd Hh0 Hty).
    by rewrite (touch_count_hotelLinks _ h0 WALKABLE_TO).
Qed.

Lemma hotel_counts_are_neighbours_in_range_witness :
  QueryResult.transitCount
    (scoreHotel Sample.rawLinks hub
       (setDegree (degreeMapOf (GraphData.links Sample.graph)) Sample.hotel1))
  = Z.of_nat (length (filter
      (λ s, GraphNode.type s = Subway ∧
            (@distance refMath
               (setDegree (degreeMapOf (GraphData.links Sample.graph)) Sample.hotel1) s
             <=? 300)%float = true)
      (GraphData.nodes Sample.graph))) ∧
  QueryResult.cultureCount
    (scoreHotel Sample.rawLinks hub
       (setDegree (degreeMapOf (GraphData.links Sample.graph)) Sample.hotel1))
  = Z.of_nat (length (filter
      (λ a, GraphNode.type a = Attraction ∧
            (@distance refMath
               (setDegree (degreeMapOf (GraphData.links Sample.graph)) Sample.hotel1) a
             <=? 500)%float = true)
      (GraphData.nodes Sample.graph))).
Proof.
  apply (@hotel_counts_are_neighbours_in_range refMath Sample.elements hub
           (setDegree (degreeMapOf (GraphData.links Sample.graph)) Sample.hotel1)).
  - vm_compute. left.
  - reflexivity.
Defined.

(** X11: the number of links never exceeds the number of hotels times the
    number of subways and attractions; without a hotel there is no link. *)
Theorem link_count_bound `{MathLib} (nodes : list GraphNode.t) :
  (length (generateLinks nodes) ≤
     length (filter (λ n, GraphNode.type n = Hotel) nodes)
     * (length (filter (λ n, GraphNode.type n = Subway) nodes)
        + length (filter (λ n, GraphNode.type n = Attraction) nodes)))%nat ∧
  (filter (λ n, GraphNode.type n = Hotel) nodes = [] → generateLinks nodes = []).
Proof.
  unfold generateLinks.
  set (hotels := filter (λ n, GraphNode.type n = Hotel) nodes).
  set (subways := filter (λ n, GraphNode.type n = Subway) nodes).
  set (attractions := filter (λ n, GraphNode.type n = Attraction) nodes).
  assert (∀ h, (length (hotelLinks subways attractions h)
                ≤ length subways + length attractions)%nat) as Hone.
  { intros h. unfold hotelLinks. rewrite length_app.
    assert (∀ (c : GraphNode.t → bool) (mk : GraphNode.t → GraphLink.t) l,
              (length (l ≫= λ a, if c a then [mk a] else []) ≤ length l)%nat) as Hcond.
    { intros c mk l. induction l as [|x l IH]; [done|].
      rewrite bind_cons, length_app. destruct (c x); simpl; lia. }
    pose proof (Hcond (λ s, (distance h s <=? 300)%float) (transitLink h) subways).
    pose proof (Hcond (λ a, (distance h a <=? 500)%float) (walkableLink h) attractions).
    lia. }
  split; [|by intros ->].
  generalize hotels. intros hs. induction hs as [|h hs IH]; [done|].
  rewrite bind_cons, length_app. specialize (Hone h). simpl. lia.
Qed.

(** ** The ranking, beyond the claims *)

Lemma length_sortInsert {A} (compareFn : A → A → Z) x l :
  length (sortInsert compareFn x l) = S (length l).
Proof.
  induction l as [|y l IH]; [done|]. simpl.
  case_bool_decide; simpl; [done|]. by rewrite IH.
Qed.

Lemma length_sort {A} (compareFn : A → A → Z) (l : list A) :
  length (sort compareFn l) = length l.
Proof.
  induction l as [|x l IH]; [done|]. simpl. by rewrite length_sortInsert, IH.
Qed.

Lemma countTouching_nonneg rawLinks k label : 0 ≤ countTouching rawLinks k label.
Proof. unfold countTouching. lia. Qed.

Lemma modeScore_no_links queryMode : modeScore queryMode 0 0 = 0.
Proof. by destruct queryMode. Qed.

(** X12: the ranking is the top of the list: a hotel of the node array
    with a positive score is either in the ranking, or the ranking is full
    (five results) and none of its results has a smaller score than that
    hotel. *)
Theorem ranking_keeps_the_best (nodes : list GraphNode.t) (rawLinks : list RawLink.t)
    (queryMode : QueryMode) (h : GraphNode.t) :
  rawLinks ≠ [] → h ∈ nodes → GraphNode.type h = Hotel →
  QueryResult.score (scoreHotel rawLinks queryMode h) > 0 →
  scoreHotel rawLinks queryMode h ∈ queryResults nodes rawLinks queryMode ∨
  (length (queryResults nodes rawLinks queryMode) = 5%nat ∧
   ∀ r, r ∈ queryResults nodes rawLinks queryMode →
        QueryResult.score (scoreHotel rawLinks queryMode h) ≤ QueryResult.score r).
Proof.
  intros Hraw Hh Hty Hpos.
  rewrite queryResults_eq by (done || by intros ->; apply elem_of_nil in Hh).
  set (cands := filter _ (_ <$> _)).
  assert (scoreHotel rawLinks queryMode h ∈ sort byScoreDesc cands) as Hin.
  { apply elem_of_sort, list_elem_of_filter. split; [done|].
    apply list_elem_of_fmap_2. by apply list_elem_of_filter. }
  apply list_elem_of_lookup in Hin as [j Hj].
  destruct (decide (j < 5)%nat) as [Hlt|Hge].
  - left. apply list_elem_of_lookup. exists j. apply lookup_take_Some. by split.
  - right. split.
    + apply lookup_lt_Some in Hj. rewrite length_take. lia.
    + intros r [i [Hi Hi5]%lookup_take_Some]%list_elem_of_lookup.
      pose proof (ordered_sort byScoreDesc byScoreDesc_trans byScoreDesc_total cands
                    i j r _ ltac:(lia) Hi Hj) as Hord.
      unfold byScoreDesc in Hord. lia.
Qed.

Lemma ranking_keeps_the_best_witness :
  scoreHotel Sample.rawLinks culture Sample.hotel2
    ∈ queryResults Sample.nodes Sample.rawLinks culture ∨
  (length (queryResults Sample.nodes Sample.rawLinks culture) = 5%nat ∧
   ∀ r, r ∈ queryResults Sample.nodes Sample.rawLinks culture →
        QueryResult.score (scoreHotel Sample.rawLinks culture Sample.hotel2)
        ≤ QueryResult.score r).
Proof.
  apply (ranking_keeps_the_best Sample.nodes Sample.rawLinks culture Sample.hotel2).
  - by vm_compute.
  - do 4 right. left.
  - reflexivity.
  - by vm_compute.
Defined.

(** X13: the ranking has as many results as there are hotels with a
    positive score in the node array, up to five; this also holds when
    there are no nodes or no links, where no hotel scores. *)
Theorem ranking_length (nodes : list GraphNode.t) (rawLinks : list RawLink.t)
    (queryMode : QueryMode) :
  length (queryResults nodes rawLinks queryMode) =
    Nat.min 5 (length (filter
      (λ h, GraphNode.type h = Hotel ∧
            QueryResult.score (scoreHotel rawLinks queryMode h) > 0) nodes)).
Proof.
  destruct rawLinks as [|l rawLinks].
  { rewrite filter_none; [done|].
    intros h _ [_ Hpos]. simpl in Hpos. unfold countTouching in Hpos.
    simpl in Hpos. rewrite modeScore_no_links in Hpos. lia. }
  destruct nodes as [|n nodes]; [done|].
  rewrite queryResults_eq by done.
  rewrite length_take, length_sort, length_filter_fmap, list_filter_filter.
  f_equal. apply length_filter_ext. intros h _. simpl. tauto.
Qed.

(** X14: a score is never negative.  In the mode connected it is positive
    exactly for a hotel with both a transit and a culture link, in every
    other mode exactly for a hotel with at least one link.  The modes are
    ordered: connected ≤ balanced ≤ transit ≤ hub and balanced ≤ culture ≤
    corridor. *)
Theorem score_sign_and_mode_order (rawLinks : list RawLink.t) (h : GraphNode.t)
    (queryMode : QueryMode) :
  0 ≤ QueryResult.score (scoreHotel rawLinks queryMode h) ∧
  (QueryResult.score (scoreHotel rawLinks queryMode h) > 0 ↔
     if bool_decide (queryMode = connected)
     then countTouching rawLinks (GraphNode.id h) TRANSIT_ACCESS > 0 ∧
          countTouching rawLinks (GraphNode.id h) WALKABLE_TO > 0
     else countTouching rawLinks (GraphNode.id h) TRANSIT_ACCESS > 0 ∨
          countTouching rawLinks (GraphNode.id h) WALKABLE_TO > 0) ∧
  QueryResult.score (scoreHotel rawLinks connected h)
    ≤ QueryResult.score (scoreHotel rawLinks balanced h) ∧
  QueryResult.score (scoreHotel rawLinks balanced h)
    ≤ QueryResult.score (scoreHotel rawLinks transit h) ∧
  QueryResult.score (scoreHotel rawLinks transit h)
    ≤ QueryResult.score (scoreHotel rawLinks hub h) ∧
  QueryResult.score (scoreHotel rawLinks balanced h)
    ≤ QueryResult.score (scoreHotel rawLinks culture h) ∧
  QueryResult.score (scoreHotel rawLinks culture h)
    ≤ QueryResult.score (scoreHotel rawLinks corridor h).
Proof.
  unfold scoreHotel. simpl.
  pose proof (countTouching_nonneg rawLinks (GraphNode.id h) TRANSIT_ACCESS) as Ht.
  pose proof (countTouching_nonneg rawLinks (GraphNode.id h) WALKABLE_TO) as Hc.
  set (t := countTouching _ _ TRANSIT_ACCESS) in *.
  set (c := countTouching _ _ WALKABLE_TO) in *.
  assert (modeScore connected t c = if bool_decide (t > 0) && bool_decide (c > 0)
                                    then t + c else 0) as Hconn by done.
  split_and!.
  - destruct queryMode; unfold modeScore; simpl; try lia.
    destruct (_ && _); lia.
  - destruct queryMode; unfold modeScore; simpl; try lia.
    repeat case_bool_decide; simpl; lia.
  - rewrite Hconn. unfold modeScore. simpl. destruct (_ && _); lia.
  - unfold modeScore. simpl. lia.
  - unfold modeScore. simpl. lia.
  - unfold modeScore. simpl. lia.
  - unfold modeScore. simpl. lia.
Qed.

(** X15: the scale of the score bars is safe: [maxScore] is strictly
    positive, so the bar of a result never divides by zero; it is the score
    of the first result when there is one, and no result exceeds it. *)
Theorem maxScore_bounds_every_result (nodes : list GraphNode.t)
    (rawLinks : list RawLink.t) (queryMode : QueryMode) :
  maxScore (queryResults nodes rawLinks queryMode) > 0 ∧
  (∀ r, r ∈ queryResults nodes rawLinks queryMode →
        0 < QueryResult.score r ≤ maxScore (queryResults nodes rawLinks queryMode)) ∧
  (queryResults nodes rawLinks queryMode = [] →
   maxScore (queryResults nodes rawLinks queryMode) = 1).
Proof.
  assert (∀ i j a b, (i < j)%nat →
            queryResults nodes rawLinks queryMode !! i = Some a →
            queryResults nodes rawLinks queryMode !! j = Some b →
            QueryResult.score b ≤ QueryResult.score a) as Hord.
  { unfold queryResults. destruct (_ || _); [by intros i j a b _ ?|].
    intros i j a b Hij Ha Hb.
    pose proof (ordered_take byScoreDesc 5 _
                  (ordered_sort byScoreDesc byScoreDesc_trans byScoreDesc_total _)
                  i j a b Hij Ha Hb) as Ho.
    unfold byScoreDesc in Ho. lia. }
  assert (∀ r, r ∈ queryResults nodes rawLinks queryMode → QueryResult.score r > 0)
    as Hpos by (by intros r (_ & _ & _ & ?)%elem_of_queryResults).
  unfold maxScore.
  destruct (queryResults nodes rawLinks queryMode) as [|r0 rs] eqn:Hrs; simpl.
  - split_and!; [lia | by intros r ?%elem_of_nil | done].
  - split_and!; [apply Hpos; left | | done].
    intros r Hr. split; [specialize (Hpos r Hr); lia|].
    apply list_elem_of_lookup in Hr as [[|j] Hj].
    + injection Hj as ->. lia.
    + by apply (Hord 0%nat (S j) r0 r); [lia| |].
Qed.

(** X16: every result of a ranking has a rank colour: the index of a result
    is always within [RANK_COLORS]. *)
Theorem every_rank_has_a_colour (nodes : list GraphNode.t) (rawLinks : list RawLink.t)
    (queryMode : QueryMode) (i : nat) :
  is_Some (queryResults nodes rawLinks queryMode !! i) → is_Some (RANK_COLORS !! i).
Proof.
  intros Hi%lookup_lt_is_Some. apply lookup_lt_is_Some.
  assert (length (queryResults nodes rawLinks queryMode) ≤ 5)%nat as Hlen.
  { unfold queryResults. destruct (_ || _); simpl; [lia|]. rewrite length_take. lia. }
  simpl. lia.
Qed.

Lemma every_rank_has_a_colour_witness : is_Some (RANK_COLORS !! 1%nat).
Proof.
  apply (every_rank_has_a_colour Sample.nodes Sample.rawLinks transit 1).
  vm_compute. by eexists.
Defined.

(** X17: the lookup of the active mode never comes back empty: for every
    query mode [QUERY_MODES] holds exactly one configuration, with that
    mode as key, and [find] returns it. *)
Theorem every_mode_has_one_config (queryMode : QueryMode) :
  ∃ config,
    activeModeConfig queryMode = Some config ∧
    QueryModeConfig.key config = queryMode ∧
    filter (λ m, QueryModeConfig.key m = queryMode) QUERY_MODES = [config].
Proof. destruct queryMode; eexists; by vm_compute. Qed.

(** X18: the three counters of the statistics chips split the node array:
    they add up to the number of nodes, whatever the nodes are. *)
Theorem counts_partition_the_nodes (nodes : list GraphNode.t) :
  Counts.hotels (counts nodes) + Counts.subways (counts nodes)
  + Counts.attractions (counts nodes) = Z.of_nat (length nodes).
Proof.
  unfold counts. simpl.
  induction nodes as [|n nodes IH]; [done|].
  rewrite !filter_cons. simpl length.
  destruct (GraphNode.type n);
    repeat (rewrite decide_True by done || rewrite decide_False by done);
    simpl length; lia.
Qed.

(** X19: the label painted under a node is the name itself when it has at
    most 24 code units, and otherwise its first 24 units followed by one
    ellipsis: it never has more than 25 units and always starts like the
    name. *)
Theorem nodeLabel_is_bounded (raw : list N) :
  (length (nodeLabel raw) ≤ 25)%nat ∧
  take 24 (nodeLabel raw) = take 24 raw ∧
  ((length raw ≤ 24)%nat → nodeLabel raw = raw) ∧
  ((24 < length raw)%nat →
     length (nodeLabel raw) = 25%nat ∧ nodeLabel raw !! 24%nat = Some ELLIPSIS).
Proof.
  unfold nodeLabel. case_bool_decide as Hlong.
  - split_and!.
    + rewrite length_app, length_take. change (length [ELLIPSIS]) with 1%nat. lia.
    + rewrite take_app_le by (rewrite length_take; lia).
      rewrite take_take. f_equal.
    + lia.
    + intros _. split.
      * rewrite length_app, length_take. change (length [ELLIPSIS]) with 1%nat. lia.
      * rewrite lookup_app_r by (rewrite length_take; lia).
        rewrite length_take. by replace (24 - 24 `min` length raw)%nat with 0%nat by lia.
  - split_and!; [lia|done|done|lia].
Qed.

(** ** The map view *)

Lemma nodeMapOf_snoc nodes n :
  nodeMapOf (nodes ++ [n]) = <[ GraphNode.id n := n ]> (nodeMapOf nodes).
Proof. unfold nodeMapOf. by rewrite foldl_snoc. Qed.

Lemma nodeMapOf_lookup_Some nodes k n :
  nodeMapOf nodes !! k = Some n → n ∈ nodes ∧ GraphNode.id n = k.
Proof.
  induction nodes as [|x nodes IH] using rev_ind; [done|].
  rewrite nodeMapOf_snoc. destruct (decide (GraphNode.id x = k)) as [<-|Hne].
  - rewrite lookup_insert_eq. intros [= ->]. split; [|done].
    apply elem_of_app. right. left.
  - rewrite lookup_insert_ne by done. intros [? ?]%IH. split; [|done].
    apply elem_of_app. by left.
Qed.

Lemma nodeMapOf_is_Some nodes k :
  is_Some (nodeMapOf nodes !! k) ↔ k ∈ GraphNode.id <$> nodes.
Proof.
  induction nodes as [|x nodes IH] using rev_ind.
  - unfold nodeMapOf. simpl. rewrite lookup_empty, elem_of_nil.
    split; [by intros [? ?]|done].
  - rewrite nodeMapOf_snoc, fmap_app, elem_of_app. simpl.
    rewrite list_elem_of_singleton.
    destruct (decide (GraphNode.id x = k)) as [<-|Hne].
    + rewrite lookup_insert_eq. split; [by right | by eexists].
    + rewrite lookup_insert_ne, IH by done. split; [by left|].
      by intros [?|?].
Qed.

Lemma nodeMapOf_lookup_NoDup nodes n :
  NoDup (GraphNode.id <$> nodes) → n ∈ nodes →
  nodeMapOf nodes !! GraphNode.id n = Some n.
Proof.
  intros Hnd Hn.
  destruct (proj2 (nodeMapOf_is_Some nodes (GraphNode.id n))) as [m Hm];
    [by apply list_elem_of_fmap_2|].
  rewrite Hm. f_equal.
  apply nodeMapOf_lookup_Some in Hm as [Hm Hid].
  by apply (NoDup_fmap_eq GraphNode.id nodes).
Qed.

(** X20: on the map every link of a run is drawn, none is skipped: the
    polyline of the i-th link has the key "link-i", goes from the
    coordinates of the hotel at its source to the coordinates of the node at
    its target, and has the colour of the class of that target. *)
Theorem map_draws_every_link `{MathLib} (elements : list OsmElement.t) (i : nat)
    (l : GraphLink.t) :
  GraphData.links (buildNycGraph elements) !! i = Some l →
  ∃ h x,
    h ∈ GraphData.nodes (buildNycGraph elements) ∧
    x ∈ GraphData.nodes (buildNycGraph elements) ∧
    GraphNode.type h = Hotel ∧
    GraphNode.id h = GraphLink.source l ∧ GraphNode.id x = GraphLink.target l ∧
    linkPolylines (GraphData.nodes (buildNycGraph elements))
                  (snapshot <$> GraphData.links (buildNycGraph elements)) !! i
    = Some (Some (Polyline.mk
                    ("link-" +:+ pretty i)
                    ((GraphNode.lat h, GraphNode.lon h), (GraphNode.lat x, GraphNode.lon x))
                    (NODE_COLORS (GraphNode.type x))
                    1.5%float 0.55%float "5, 8")).
Proof.
  intros Hi.
  assert (l ∈ GraphData.links (buildNycGraph elements)) as Hl
    by by eapply list_elem_of_lookup_2.
  apply links_of_run in Hl as (h & x & Hh & Hx & Hs & Ht & Hty & Hrule).
  exists h, x. split_and!; try done.
  unfold linkPolylines. rewrite list_lookup_imap, list_lookup_fmap, Hi. simpl.
  unfold linkPolyline. simpl. rewrite <- Hs, <- Ht.
  rewrite !nodeMapOf_lookup_NoDup by (done || apply buildNycGraph_NoDup).
  destruct Hrule as [[-> ->]|[-> ->]]; done.
Qed.

Lemma map_draws_every_link_witness :
  ∃ h x,
    h ∈ GraphData.nodes Sample.graph ∧ x ∈ GraphData.nodes Sample.graph ∧
    GraphNode.type h = Hotel ∧
    GraphNode.id h = "node-1" ∧ GraphNode.id x = "way-3" ∧
    linkPolylines (GraphData.nodes Sample.graph) Sample.rawLinks !! 1%nat
    = Some (Some (Polyline.mk
                    ("link-" +:+ pretty 1%nat)
                    ((GraphNode.lat h, GraphNode.lon h), (GraphNode.lat x, GraphNode.lon x))
                    (NODE_COLORS (GraphNode.type x))
                    1.5%float 0.55%float "5, 8")).
Proof.
  apply (@map_draws_every_link refMath Sample.elements 1
           (walkableLink Sample.hotel1 Sample.museum1)).
  by vm_compute.
Defined.

(** The node map resolves an identifier to the last node that carries it. *)
Lemma nodeMapOf_last l1 n l2 :
  (∀ m, m ∈ l2 → GraphNode.id m ≠ GraphNode.id n) →
  nodeMapOf (l1 ++ n :: l2) !! GraphNode.id n = Some n.
Proof.
  induction l2 as [|m l2 IH] using rev_ind; intros Hlast.
  - by rewrite nodeMapOf_snoc, lookup_insert_eq.
  - rewrite app_comm_cons, app_assoc, nodeMapOf_snoc.
    rewrite lookup_insert_ne by (apply Hlast, elem_of_app; right; left).
    apply IH. intros m' Hm'. apply Hlast, elem_of_app. by left.
Qed.

(** X21: for any nodes and raw links, the map draws a link exactly when
    both of its endpoints are identifiers of nodes; a link with a dangling
    endpoint is skipped, and the other links are still drawn, one entry per
    link.  When several nodes share an identifier the map resolves it to
    the last of them in the array, wherever it stands, and the polyline of
    a link runs between the last node with its source and the last node
    with its target. *)
Theorem map_skips_dangling_links (nodes : list GraphNode.t) (rawLinks : list RawLink.t) :
  length (linkPolylines nodes rawLinks) = length rawLinks ∧
  (∀ i link, rawLinks !! i = Some link →
     ∃ drawn, linkPolylines nodes rawLinks !! i = Some drawn ∧
       (is_Some drawn ↔
          RawLink.source link ∈ GraphNode.id <$> nodes ∧
          RawLink.target link ∈ GraphNode.id <$> nodes)) ∧
  (∀ n, nodeMapOf (nodes ++ [n]) !! GraphNode.id n = Some n) ∧
  (∀ l1 n l2, nodes = l1 ++ n :: l2 →
     (∀ m, m ∈ l2 → GraphNode.id m ≠ GraphNode.id n) →
     nodeMapOf nodes !! GraphNode.id n = Some n) ∧
  (∀ i link l1 src l2 k1 tgt k2, rawLinks !! i = Some link →
     nodes = l1 ++ src :: l2 → GraphNode.id src = RawLink.source link →
     (∀ m, m ∈ l2 → GraphNode.id m ≠ RawLink.source link) →
     nodes = k1 ++ tgt :: k2 → GraphNode.id tgt = RawLink.target link →
     (∀ m, m ∈ k2 → GraphNode.id m ≠ RawLink.target link) →
     linkPolylines nodes rawLinks !! i =
       Some (Some (Polyline.mk
                     ("link-" +:+ pretty i)
                     ((GraphNode.lat src, GraphNode.lon src),
                      (GraphNode.lat tgt, GraphNode.lon tgt))
                     (if bool_decide (RawLink.label link = TRANSIT_ACCESS)
                      then "#10B981" else "#F59E0B")
                     1.5%float 0.55%float "5, 8"))).
Proof.
  split_and!.
  - unfold linkPolylines. apply length_imap.
  - intros i link Hi. exists (linkPolyline (nodeMapOf nodes) i link). split.
    + unfold linkPolylines. by rewrite list_lookup_imap, Hi.
    + rewrite <- !nodeMapOf_is_Some. unfold linkPolyline.
      destruct (nodeMapOf nodes !! RawLink.source link),
               (nodeMapOf nodes !! RawLink.target link); simpl;
        split; try (by intros [? ?]); try (by intros [[? ?] [? ?]]); eauto.
  - intros n. by rewrite nodeMapOf_snoc, lookup_insert_eq.
  - intros l1 n l2 -> Hlast. by apply nodeMapOf_last.
  - intros i link l1 src l2 k1 tgt k2 Hi Hs Hsid Hslast Ht Htid Htlast.
    unfold linkPolylines. rewrite list_lookup_imap, Hi. simpl.
    unfold linkPolyline.
    assert (nodeMapOf nodes !! RawLink.source link = Some src) as ->.
    { rewrite Hs, <- Hsid. apply nodeMapOf_last. intros m Hm. rewrite Hsid. auto. }
    assert (nodeMapOf nodes !! RawLink.target link = Some tgt) as ->.
    { rewrite Ht, <- Htid. apply nodeMapOf_last. intros m Hm. rewrite Htid. auto. }
    done.
Qed.

(** ** Order of the nodes, and loading *)

(** X22: the nodes come in the order of the records: their identifiers are
    the keys of some of the records, in the same order. *)
Theorem nodes_keep_record_order (elements : list OsmElement.t) :
  GraphNode.id <$> buildNodes elements `sublist_of` elementId <$> elements.
Proof.
  induction elements as [|x elements IH] using rev_ind; [done|].
  rewrite buildNodes_snoc, fmap_app. simpl.
  destruct (resolveLat x) as [la|], (resolveLon x) as [lo|];
    try by apply sublist_inserts_r.
  case_bool_decide; [by apply sublist_inserts_r|].
  rewrite fmap_app. by apply sublist_app.
Qed.

(** X23: once the request has settled the page is never left loading, and
    it never holds an error together with data.  A rejected request sets
    its message as the error, a response that is not ok sets "Overpass API
    error: HTTP", the status and the status text, and a body that cannot
    be read sets the message of that failure; each of them leaves the graph
    and the raw links empty, so every ranking is then empty.  An ok
    response with a readable body sets no error and stores the graph of its
    elements and the snapshot of its links, also when the body has no
    [elements], which gives the empty graph. *)
Theorem page_state_after_loading `{MathLib} (outcome : FetchOutcome) :
  PageState.loading (settle (fetchNycGraph outcome) initialPageState) = false ∧
  (is_Some (PageState.error (settle (fetchNycGraph outcome) initialPageState)) →
     PageState.graphData (settle (fetchNycGraph outcome) initialPageState)
       = GraphData.mk [] [] ∧
     PageState.rawLinks (settle (fetchNycGraph outcome) initialPageState) = [] ∧
     ∀ queryMode,
       queryResults
         (GraphData.nodes
            (PageState.graphData (settle (fetchNycGraph outcome) initialPageState)))
         (PageState.rawLinks (settle (fetchNycGraph outcome) initialPageState))
         queryMode = []) ∧
  (∀ message, outcome = Rejected message →
     settle (fetchNycGraph outcome) initialPageState
       = PageState.mk (GraphData.mk [] []) [] false (Some message)) ∧
  (∀ res, outcome = Resolved res → Response.ok res = false →
     settle (fetchNycGraph outcome) initialPageState
       = PageState.mk (GraphData.mk [] []) [] false
           (Some ("Overpass API error: HTTP " +:+ pretty (Response.status res) +:+ " "
                  +:+ Response.statusText res))) ∧
  (∀ res message, outcome = Resolved res → Response.ok res = true →
     Response.json res = inl message →
     settle (fetchNycGraph outcome) initialPageState
       = PageState.mk (GraphData.mk [] []) [] false (Some message)) ∧
  (∀ res elements, outcome = Resolved res → Response.ok res = true →
     Response.json res = inr elements →
     PageState.error (settle (fetchNycGraph outcome) initialPageState) = None ∧
     PageState.graphData (settle (fetchNycGraph outcome) initialPageState)
       = buildNycGraph (default [] elements) ∧
     PageState.rawLinks (settle (fetchNycGraph outcome) initialPageState)
       = snapshot <$> GraphData.links (buildNycGraph (default [] elements)) ∧
     (elements = None →
      PageState.graphData (settle (fetchNycGraph outcome) initialPageState)
        = GraphData.mk [] [])).
Proof.
  split_and!.
  - unfold settle. by destruct (fetchNycGraph outcome).
  - unfold settle. destruct (fetchNycGraph outcome); simpl; [done|].
    by intros [? ?].
  - by intros message ->.
  - intros res -> Hok. simpl. by rewrite Hok.
  - intros res message -> Hok Hjson. simpl. by rewrite Hok, Hjson.
  - intros res elements -> Hok Hjson. simpl. rewrite Hok, Hjson. simpl.
    split_and!; try done. by intros ->.
Qed.

(** ** The order of binary64 numbers, and the fitted bounds *)

Ltac compare_cases :=
  repeat match goal with
    | |- context [(?a ?= ?b)%Z] => destruct (Z.compare_spec a b)
    | |- context [PosDef.Pos.compare_cont Eq ?a ?b] =>
        change (PosDef.Pos.compare_cont Eq a b) with (a ?= b)%positive;
        destruct (Pos.compare_spec a b)
    end; simpl; try done; try lia; try (exfalso; lia).

Lemma SFcompare_antisym (x y : spec_float) c :
  SFcompare x y = Some c → SFcompare y x = Some (CompOpp c).
Proof.
  destruct x as [sx|sx| |sx mx ex], y as [sy|sy| |sy my ey]; simpl;
    try destruct sx; try destruct sy; try done;
    try (intros [= <-]; done).
  all: destruct c; compare_cases.
Qed.

Lemma SFcompare_None (x y : spec_float) :
  SFcompare x y = None → x = S754_nan ∨ y = S754_nan.
Proof.
  destruct x as [sx|sx| |sx mx ex], y as [sy|sy| |sy my ey]; simpl; auto;
    try destruct sx; try destruct sy; done.
Qed.

Lemma SFleb_trans (x y z : spec_float) :
  SFleb x y = true → SFleb y z = true → SFleb x z = true.
Proof.
  unfold SFleb.
  destruct x as [sx|sx| |sx mx ex], y as [sy|sy| |sy my ey], z as [sz|sz| |sz mz ez];
    simpl; try destruct sx; try destruct sy; try destruct sz; try done.
  all: compare_cases.
Qed.

Lemma is_nan_false_Prim2SF x : is_nan x = false → Prim2SF x ≠ S754_nan.
Proof.
  unfold is_nan. rewrite FloatAxioms.eqb_spec. unfold SFeqb. intros Hx Hn.
  rewrite Hn in Hx. done.
Qed.

Lemma float_leb_refl x : is_nan x = false → (x <=? x)%float = true.
Proof.
  unfold is_nan. rewrite FloatAxioms.eqb_spec, leb_spec. unfold SFeqb, SFleb.
  by destruct (SFcompare _ _) as [[]|].
Qed.

Lemma float_leb_trans x y z :
  (x <=? y)%float = true → (y <=? z)%float = true → (x <=? z)%float = true.
Proof. rewrite !leb_spec. apply SFleb_trans. Qed.

Lemma float_ltb_leb x y : (x <? y)%float = true → (x <=? y)%float = true.
Proof.
  rewrite ltb_spec, leb_spec. unfold SFltb, SFleb.
  by destruct (SFcompare _ _) as [[]|].
Qed.

Lemma float_leb_total x y :
  is_nan x = false → is_nan y = false →
  (x <? y)%float = false → (y <=? x)%float = true.
Proof.
  intros Hx%is_nan_false_Prim2SF Hy%is_nan_false_Prim2SF.
  rewrite ltb_spec, leb_spec. unfold SFltb, SFleb.
  destruct (SFcompare (Prim2SF x) (Prim2SF y)) as [c|] eqn:Hc.
  - rewrite (SFcompare_antisym _ _ _ Hc). by destruct c.
  - by apply SFcompare_None in Hc as [?|?].
Qed.


Lemma SFcompare_refl x : x ≠ S754_nan → SFcompare x x = Some Eq.
Proof.
  destruct x as [[]|[]| |[] m e]; simpl; try done; intros _;
    rewrite Z.compare_refl;
    change (PosDef.Pos.compare_cont Eq m m) with (m ?= m)%positive;
    by rewrite Pos.compare_refl.
Qed.

Lemma float_leb_not_nan x y : (x <=? y)%float = true → is_nan x = false ∧ is_nan y = false.
Proof.
  unfold is_nan. rewrite leb_spec, !FloatAxioms.eqb_spec. unfold SFleb, SFeqb.
  intros Hle.
  assert (Prim2SF x ≠ S754_nan ∧ Prim2SF y ≠ S754_nan) as [Hx Hy].
  { split; intros Hn; rewrite Hn in Hle; simpl in Hle; [done|].
    by destruct (Prim2SF x). }
  by rewrite !SFcompare_refl.
Qed.

Lemma SFclassify_NZero x : SF64classify x = NZero → x = S754_zero true.
Proof.
  unfold SF64classify, SFclassify.
  destruct x as [[]|[]| |[] m e]; try done; by destruct (_ =? _)%Z.
Qed.

Lemma SFclassify_PZero x : SF64classify x = PZero → x = S754_zero false.
Proof.
  unfold SF64classify, SFclassify.
  destruct x as [[]|[]| |[] m e]; try done; by destruct (_ =? _)%Z.
Qed.

Lemma float_zero_leb x y : isNegZero x = true → isPosZero y = true → (x <=? y)%float = true.
Proof.
  unfold isNegZero, isPosZero. rewrite !classify_spec, leb_spec.
  intros Hx Hy.
  rewrite (SFclassify_NZero (Prim2SF x)), (SFclassify_PZero (Prim2SF y)); [done| |].
  - by destruct (SF64classify (Prim2SF y)).
  - by destruct (SF64classify (Prim2SF x)).
Qed.

Lemma minLoop_lower_bound values lowest :
  is_nan lowest = false → Forall (λ x, is_nan x = false) values →
  (minLoop lowest values <=? lowest)%float = true ∧
  ∀ x, x ∈ values → (minLoop lowest values <=? x)%float = true.
Proof.
  revert lowest. induction values as [|number rest IH]; intros lowest Hl Hv.
  - split; [by apply float_leb_refl | by intros x ?%elem_of_nil].
  - apply Forall_cons in Hv as [Hn Hv]. simpl. rewrite Hn.
    assert (∀ m, (m <=? number)%float = true → (number <=? lowest)%float = true →
                 (∀ x, x ∈ rest → (m <=? x)%float = true) →
                 (m <=? lowest)%float = true ∧
                 ∀ x, x ∈ number :: rest → (m <=? x)%float = true) as Hnew.
    { intros m Hmn Hnl Hrest. split; [by eapply float_leb_trans|].
      intros x [->|Hx]%elem_of_cons; auto. }
    destruct (isNegZero number && isPosZero lowest) eqn:Hz.
    { apply andb_true_iff in Hz as [Hz1 Hz2].
      destruct (IH number Hn Hv) as [H1 H2].
      apply Hnew; auto using float_zero_leb. }
    destruct (number <? lowest)%float eqn:Hlt.
    { destruct (IH number Hn Hv) as [H1 H2].
      apply Hnew; auto using float_ltb_leb. }
    destruct (IH lowest Hl Hv) as [H1 H2]. split; [done|].
    intros x [->|Hx]%elem_of_cons; [|by auto].
    eapply float_leb_trans; [done|]. by apply float_leb_total.
Qed.

Lemma maxLoop_upper_bound values highest :
  is_nan highest = false → Forall (λ x, is_nan x = false) values →
  (highest <=? maxLoop highest values)%float = true ∧
  ∀ x, x ∈ values → (x <=? maxLoop highest values)%float = true.
Proof.
  revert highest. induction values as [|number rest IH]; intros highest Hh Hv.
  - split; [by apply float_leb_refl | by intros x ?%elem_of_nil].
  - apply Forall_cons in Hv as [Hn Hv]. simpl. rewrite Hn.
    assert (∀ m, (number <=? m)%float = true → (highest <=? number)%float = true →
                 (∀ x, x ∈ rest → (x <=? m)%float = true) →
                 (highest <=? m)%float = true ∧
                 ∀ x, x ∈ number :: rest → (x <=? m)%float = true) as Hnew.
    { intros m Hmn Hnl Hrest. split; [by eapply float_leb_trans|].
      intros x [->|Hx]%elem_of_cons; auto. }
    destruct (isPosZero number && isNegZero highest) eqn:Hz.
    { apply andb_true_iff in Hz as [Hz1 Hz2].
      destruct (IH number Hn Hv) as [H1 H2].
      apply Hnew; auto using float_zero_leb. }
    destruct (highest <? number)%float eqn:Hlt.
    { destruct (IH number Hn Hv) as [H1 H2].
      apply Hnew; auto using float_ltb_leb. }
    destruct (IH highest Hh Hv) as [H1 H2]. split; [done|].
    intros x [->|Hx]%elem_of_cons; [|by auto].
    eapply float_leb_trans; [|done]. by apply float_leb_total.
Qed.

(** X24: when the map fits its view, the bounds contain every node: with
    no node nothing is fitted, and otherwise, for coordinates that are
    numbers (not NaN), the south-west corner is at most, and the north-east
    corner at least, the latitude and longitude of each node. *)
Theorem fitted_bounds_contain_every_node (nodes : list GraphNode.t) :
  (∀ n, n ∈ nodes →
        is_nan (GraphNode.lat n) = false ∧ is_nan (GraphNode.lon n) = false) →
  fitBoundsOf [] = None ∧
  (nodes ≠ [] →
   ∃ south west north east,
     fitBoundsOf nodes = Some ((south, west), (north, east)) ∧
     ∀ n, n ∈ nodes →
       (south <=? GraphNode.lat n)%float = true ∧
       (GraphNode.lat n <=? north)%float = true ∧
       (west <=? GraphNode.lon n)%float = true ∧
       (GraphNode.lon n <=? east)%float = true).
Proof.
  intros Hnum. split; [done|]. intros Hne.
  assert (Forall (λ x, is_nan x = false) (GraphNode.lat <$> nodes)) as Hlat.
  { apply Forall_fmap, Forall_forall. intros n Hn. by apply Hnum. }
  assert (Forall (λ x, is_nan x = false) (GraphNode.lon <$> nodes)) as Hlon.
  { apply Forall_fmap, Forall_forall. intros n Hn. by apply Hnum. }
  eexists _, _, _, _. split.
  - unfold fitBoundsOf. rewrite bool_decide_eq_false_2; [done|].
    by intros ?%length_zero_iff_nil.
  - intros n Hn. split_and!.
    + by apply (minLoop_lower_bound _ infinity), list_elem_of_fmap_2.
    + by apply (maxLoop_upper_bound _ neg_infinity), list_elem_of_fmap_2.
    + by apply (minLoop_lower_bound _ infinity), list_elem_of_fmap_2.
    + by apply (maxLoop_upper_bound _ neg_infinity), list_elem_of_fmap_2.
Qed.

Lemma fitted_bounds_contain_every_node_witness :
  fitBoundsOf [] = None ∧
  (Sample.nodes ≠ [] →
   ∃ south west north east,
     fitBoundsOf Sample.nodes = Some ((south, west), (north, east)) ∧
     ∀ n, n ∈ Sample.nodes →
       (south <=? GraphNode.lat n)%float = true ∧
       (GraphNode.lat n <=? north)%float = true ∧
       (west <=? GraphNode.lon n)%float = true ∧
       (GraphNode.lon n <=? east)%float = true).
Proof.
  apply (fitted_bounds_contain_every_node Sample.nodes).
  intros n Hn. repeat (apply elem_of_cons in Hn as [->|Hn]; [by vm_compute|]).
  by apply elem_of_nil in Hn.
Defined.

(** ** The degree of a subway or an attraction *)

Lemma length_filter_bind_sum {A B} (P : B → Prop) `{!∀ y, Decision (P y)}
    (f : A → list B) (l : list A) :
  Z.of_nat (length (filter P (l ≫= f))) = sumZ (λ a, Z.of_nat (length (filter P (f a)))) l.
Proof.
  induction l as [|x l IH]; [done|].
  rewrite bind_cons, filter_app, length_app, sumZ_cons, <- IH. lia.
Qed.

Lemma sumZ_indicator_filter {A} (c : A → bool) (l : list A) :
  sumZ (λ a, if c a then 1 else 0) l = Z.of_nat (length (filter (λ a, c a = true) l)).
Proof.
  induction l as [|x l IH]; [done|].
  rewrite sumZ_cons, filter_cons, IH. destruct (c x) eqn:Hc.
  - rewrite decide_True by done. simpl length. lia.
  - rewrite decide_False by done. lia.
Qed.

(** Among nodes with distinct identifiers, the ones that pass a test and
    carry the identifier of a given node are that node, or none. *)
Lemma count_by_id (c : GraphNode.t → bool) (l : list GraphNode.t) (x : GraphNode.t) :
  NoDup (GraphNode.id <$> l) → x ∈ l →
  length (filter (λ s, c s = true ∧ GraphNode.id s = GraphNode.id x) l)
  = if c x then 1%nat else 0%nat.
Proof.
  induction l as [|s l IH]; [by intros _ ?%elem_of_nil|].
  rewrite fmap_cons, NoDup_cons. intros [Hni Hnd] Hx. rewrite filter_cons.
  destruct (decide (GraphNode.id s = GraphNode.id x)) as [Heq|Hne].
  - assert (s = x) as ->.
    { apply elem_of_cons in Hx as [->|Hx]; [done|].
      destruct Hni. rewrite Heq. by apply list_elem_of_fmap_2. }
    rewrite (filter_none _ l).
    + destruct (c x); [by rewrite decide_True | by rewrite decide_False by (by intros [? _])].
    + intros s Hs [_ Hid]. apply Hni. rewrite <- Hid. by apply list_elem_of_fmap_2.
  - rewrite decide_False by (by intros [_ ?]).
    apply IH; [done|]. apply elem_of_cons in Hx as [->|Hx]; done.
Qed.

Section TargetCounts.
Context `{MathLib}.
Context (nodes : list GraphNode.t) (x : GraphNode.t).
Hypothesis nodes_NoDup : NoDup (GraphNode.id <$> nodes).
Hypothesis x_in : x ∈ nodes.
Hypothesis x_not_hotel : GraphNode.type x ≠ Hotel.

Let subways := filter (λ n, GraphNode.type n = Subway) nodes.
Let attractions := filter (λ n, GraphNode.type n = Attraction) nodes.

Lemma no_link_from_non_hotel :
  filter (λ l, GraphLink.source l = GraphNode.id x) (generateLinks nodes) = [].
Proof.
  apply filter_none.
  intros l (h & y & Hh & _ & Hs & _ & Hty & _)%generateLinks_endpoints Hsrc.
  assert (h = x) as -> by (apply (NoDup_fmap_eq GraphNode.id nodes); try done; congruence).
  done.
Qed.

Lemma target_count_hotelLinks (h : GraphNode.t) :
  length (filter (λ l, GraphLink.target l = GraphNode.id x)
                 (hotelLinks subways attractions h))
  = match GraphNode.type x with
    | Subway => if (distance h x <=? 300)%float then 1%nat else 0%nat
    | _ => if (distance h x <=? 500)%float then 1%nat else 0%nat
    end.
Proof.
  unfold hotelLinks. rewrite filter_app, length_app, !length_filter_bind_cond. simpl.
  destruct (GraphNode.type x) eqn:Hty; [done| |].
  - rewrite (count_by_id (λ s, (distance h s <=? 300)%float) subways x);
      [|by apply filter_ids_NoDup|by apply list_elem_of_filter].
    rewrite (filter_none _ attractions); [simpl; lia|].
    intros a [Ha Hin]%list_elem_of_filter [_ Hid].
    assert (a = x) as -> by by apply (NoDup_fmap_eq GraphNode.id nodes).
    congruence.
  - rewrite (count_by_id (λ a, (distance h a <=? 500)%float) attractions x);
      [|by apply filter_ids_NoDup|by apply list_elem_of_filter].
    rewrite (filter_none _ subways); [done|].
    intros s [Hs Hin]%list_elem_of_filter [_ Hid].
    assert (s = x) as -> by by apply (NoDup_fmap_eq GraphNode.id nodes).
    congruence.
Qed.

Lemma target_count_generateLinks :
  Z.of_nat (length (filter (λ l, GraphLink.target l = GraphNode.id x)
                           (generateLinks nodes)))
  = Z.of_nat (length (filter
      (λ h, GraphNode.type h = Hotel ∧
            (distance h x <=? (if bool_decide (GraphNode.type x = Subway)
                               then 300 else 500))%float = true) nodes)).
Proof.
  unfold generateLinks. fold subways attractions.
  rewrite length_filter_bind_sum.
  rewrite (sumZ_ext _ (λ h, if (distance h x <=? (if bool_decide (GraphNode.type x = Subway)
                                                  then 300 else 500))%float
                            then 1 else 0)).
  - rewrite sumZ_indicator_filter, list_filter_filter. f_equal.
    apply length_filter_ext. intros; tauto.
  - intros h _. rewrite target_count_hotelLinks.
    destruct (GraphNode.type x); [done| |]; simpl; by destruct (_ <=? _)%float.
Qed.
End TargetCounts.

(** X25: in a run, the degree of a subway is the number of hotels of the
    run within 300 metres of it, and the degree of an attraction the number
    of hotels within 500 metres. *)
Theorem degree_of_non_hotel_counts_hotels `{MathLib} (elements : list OsmElement.t)
    (x : GraphNode.t) :
  x ∈ GraphData.nodes (buildNycGraph elements) → GraphNode.type x ≠ Hotel →
  GraphNode.degree x =
    Z.of_nat (length (filter
      (λ h, GraphNode.type h = Hotel ∧
            (distance h x <=? (if bool_decide (GraphNode.type x = Subway)
                               then 300 else 500))%float = true)
      (GraphData.nodes (buildNycGraph elements)))).
Proof.
  intros Hx Hty. rewrite (buildNycGraph_degree elements x Hx).
  revert Hx Hty. unfold buildNycGraph. simpl. set (dm := degreeMapOf _).
  intros (x0 & -> & Hx0)%list_elem_of_fmap Hty. simpl in *.
  pose proof (buildNodes_NoDup elements) as Hnd.
  rewrite (no_link_from_non_hotel _ x0 Hnd Hx0 Hty). simpl.
  rewrite (target_count_generateLinks _ x0 Hnd Hx0 Hty).
  rewrite length_filter_fmap. simpl. done.
Qed.

Lemma degree_of_non_hotel_counts_hotels_witness :
  GraphNode.degree (setDegree (degreeMapOf (GraphData.links Sample.graph)) Sample.subway1)
  = Z.of_nat (length (filter
      (λ h, GraphNode.type h = Hotel ∧
            (@distance refMath h
               (setDegree (degreeMapOf (GraphData.links Sample.graph)) Sample.subway1)
             <=? (if bool_decide
                       (GraphNode.type
                          (setDegree (degreeMapOf (GraphData.links Sample.graph))
                                     Sample.subway1) = Subway)
                  then 300 else 500))%float = true)
      (GraphData.nodes Sample.graph))).
Proof.
  apply (@degree_of_non_hotel_counts_hotels refMath Sample.elements
           (setDegree (degreeMapOf (GraphData.links Sample.graph)) Sample.subway1)).
  - vm_compute. right. left.
  - by vm_compute.
Defined.
